(** * express-redis-rate-limit: a shallow embedding of [index.js]

    The middleware of [index.js] is embedded function by function.  JavaScript
    values that the module inspects dynamically (the user's options) are kept
    as a small universe [jsval]; the Redis database behind the [cache] client
    is a finite map; the callbacks of [async.waterfall] are state
    transformers on a [world] made of the database, the trace of commands
    sent to it and the Express response under construction. *)

From Stdlib Require Import ZArith Ascii String List Bool Lia.
From Stdlib Require Import Numbers.DecimalString Numbers.DecimalZ.
From stdpp Require Import base option strings gmap.
Import ListNotations.

Local Open Scope Z_scope.

(** ** JavaScript values *)

(** Numbers.  Every number the module computes with is an integer-valued
    double or [NaN] (what [parseInt] gives on a missing reply). *)
Inductive jsnum : Type :=
| Num (z : Z)
| NaN.

(** [a + b], [a - b], [a * b], [a > b], [a < b] on numbers: arithmetic with
    a [NaN] operand is [NaN], comparisons with a [NaN] operand are false. *)
Definition jadd (a b : jsnum) : jsnum :=
  match a, b with
  | Num x, Num y => Num (x + y)
  | _, _ => NaN
  end.

Definition jsub (a b : jsnum) : jsnum :=
  match a, b with
  | Num x, Num y => Num (x - y)
  | _, _ => NaN
  end.

Definition jmul (a b : jsnum) : jsnum :=
  match a, b with
  | Num x, Num y => Num (x * y)
  | _, _ => NaN
  end.

Definition jgt (a b : jsnum) : bool :=
  match a, b with
  | Num x, Num y => y <? x
  | _, _ => false
  end.

Definition jlt (a b : jsnum) : bool :=
  match a, b with
  | Num x, Num y => x <? y
  | _, _ => false
  end.

(** The Express request, as far as [createKey] reads it. *)
Record request : Type := mkRequest {
  ip : string;
  method : string;
  url : string
}.

(** A regular expression is modelled by what [String.prototype.replace]
    asks of it: its [g] flag, and the search for the leftmost match from an
    index on.  [re_search s i] is the match found in [s] by a search that
    starts at index [i] (the [lastIndex] of the expression): how many
    characters after [i] it begins, and its length.  The flags [i] and [m]
    are part of the search.  Capture groups are outside the model, and so
    is an expression with the sticky flag, whose [lastIndex] carries over
    from one call of [replace] to the next. *)
Record RegExp : Type := mkRegExp {
  re_search : string -> nat -> option (nat * nat);
  re_global : bool
}.

(** The leftmost match in the whole string: its index and its length. *)
Definition re_exec (re : RegExp) (s : string) : option (nat * nat) :=
  re_search re s O.

(** Values.  A function value is given by its results at the two call sites
    of the module: [f(req)] (a key) and [f(ttl)] (a message). *)
#[local] Unset Elimination Schemes.
Inductive jsval : Type :=
| JUndefined
| JNull
| JBool (b : bool)
| JNum (n : jsnum)
| JStr (s : string)
| JRegExp (r : RegExp)
| JFun (on_req : request -> string) (on_ttl : jsnum -> jsval)
| JObj (fields : list (string * jsval)).
#[local] Set Elimination Schemes.

Inductive jstype : Type :=
| TUndefined | TObject | TBoolean | TNumber | TString | TFunction.

(** [typeof v] *)
Definition typeof (v : jsval) : jstype :=
  match v with
  | JUndefined => TUndefined
  | JNull => TObject
  | JBool _ => TBoolean
  | JNum _ => TNumber
  | JStr _ => TString
  | JRegExp _ => TObject
  | JFun _ _ => TFunction
  | JObj _ => TObject
  end.

Definition jstype_eqb (a b : jstype) : bool :=
  match a, b with
  | TUndefined, TUndefined | TObject, TObject | TBoolean, TBoolean
  | TNumber, TNumber | TString, TString | TFunction, TFunction => true
  | _, _ => false
  end.

(** ToBoolean: what [if (v)], [!v] and [v && ...] test. *)
Definition truthy (v : jsval) : bool :=
  match v with
  | JUndefined | JNull => false
  | JBool b => b
  | JNum (Num z) => negb (z =? 0)
  | JNum NaN => false
  | JStr s => negb (String.eqb s "")
  | JRegExp _ | JFun _ _ | JObj _ => true
  end.

(** ToNumber, applied by [-], [*] and [>] to an operand that is not a
    number.  Of the strings, the empty one is [0] and a run of decimal
    digits is its value; any other is taken as [NaN], which leaves out
    signed, fractional and padded literals.  (A non-empty string does not
    get past [validateOptions] as [requestLimit] or [timeWindow].) *)
Definition digits_value (s : string) : jsnum :=
  match NilEmpty.uint_of_string s with
  | Some u => Num (Z.of_uint u)
  | None => NaN
  end.

Definition to_number (v : jsval) : jsnum :=
  match v with
  | JUndefined => NaN
  | JNull => Num 0
  | JBool b => Num (if b then 1 else 0)
  | JNum n => n
  | JStr s => if String.eqb s "" then Num 0 else digits_value s
  | JRegExp _ | JFun _ _ | JObj _ => NaN
  end.

(** ** Decimal strings and [parseInt] *)

Definition is_digit (c : ascii) : bool :=
  ((48 <=? nat_of_ascii c) && (nat_of_ascii c <=? 57))%nat.

Definition is_space (c : ascii) : bool :=
  let n := nat_of_ascii c in
  ((n =? 32) || ((9 <=? n) && (n <=? 13)))%nat.

Fixpoint skip_space (s : string) : string :=
  match s with
  | String c s' => if is_space c then skip_space s' else s
  | EmptyString => s
  end.

Fixpoint digit_prefix (s : string) : string :=
  match s with
  | String c s' => if is_digit c then String c (digit_prefix s') else EmptyString
  | EmptyString => EmptyString
  end.

(** The digits of [parseInt(s, 10)]: leading white space, an optional sign,
    then the longest run of decimal digits; [NaN] when there is none. *)
Definition parse_digits (neg : bool) (s : string) : jsnum :=
  let ds := digit_prefix s in
  if String.eqb ds "" then NaN
  else
    match NilEmpty.uint_of_string ds with
    | Some u => Num (Z.of_int (if neg then Decimal.Neg u else Decimal.Pos u))
    | None => NaN
    end.

Definition parse_decimal (s : string) : jsnum :=
  match skip_space s with
  | String "-"%char s' => parse_digits true s'
  | String "+"%char s' => parse_digits false s'
  | s' => parse_digits false s'
  end.

(** [parseInt(v, 10)].  A number is its own integer; a string is parsed;
    [undefined], [null], booleans and objects print as text without a
    leading digit, hence [NaN]. *)
Definition parseInt (v : jsval) : jsnum :=
  match v with
  | JNum n => n
  | JStr s => parse_decimal s
  | _ => NaN
  end.

(** Number to string, as [n + ' '] or a Redis bulk reply prints it. *)
Definition string_of_Z (z : Z) : string :=
  NilEmpty.string_of_int (Z.to_int z).

Definition string_of_jsnum (n : jsnum) : string :=
  match n with
  | Num z => string_of_Z z
  | NaN => "NaN"
  end.

(** ** The pattern replacement of [replaceID] *)

(** [$$], [$&], [$`] and [$'] in a replacement string ([GetSubstitution]
    for a pattern without capture groups; every other [$] is literal). *)
Fixpoint expand_replacement (tpl before matched after : string) : string :=
  match tpl with
  | String "$"%char (String c rest as tl) =>
      if Ascii.eqb c "$"%char then
        String "$"%char (expand_replacement rest before matched after)
      else if Ascii.eqb c "&"%char then
        matched +:+ expand_replacement rest before matched after
      else if Ascii.eqb c "`"%char then
        before +:+ expand_replacement rest before matched after
      else if Ascii.eqb c "'"%char then
        after +:+ expand_replacement rest before matched after
      else String "$"%char (expand_replacement tl before matched after)
  | String c rest => String c (expand_replacement rest before matched after)
  | EmptyString => EmptyString
  end.

(** [key.replace(re, tpl)] for a regular expression without the [g] flag:
    the leftmost match is replaced, a key without a match is returned as it
    is. *)
Definition regexp_replace (key : string) (re : RegExp) (tpl : string) : string :=
  match re_exec re key with
  | None => key
  | Some (i, n) =>
      let before := String.substring 0 i key in
      let matched := String.substring i n key in
      let after := String.substring (i + n) (String.length key - (i + n)) key in
      before +:+ expand_replacement tpl before matched after +:+ after
  end.

(** [key.replace(re, tpl)] for a regular expression with the [g] flag: every
    match is replaced.  The search starts at index 0 and goes on from where
    the match before it ended, one character further after an empty match,
    until it fails or has left the string; [copied] is the index up to
    which the key has been copied to the result.  Each search moves on by
    one character at least, so [String.length key + 2] rounds are never
    used up. *)
Fixpoint replace_from (fuel : nat) (key : string) (re : RegExp) (tpl : string)
    (copied lastIndex : nat) : string :=
  let rest := String.substring copied (String.length key - copied) key in
  match fuel with
  | O => rest
  | S fuel' =>
      if Nat.ltb (String.length key) lastIndex then rest
      else
        match re_search re key lastIndex with
        | None => rest
        | Some (k, n) =>
            let i := (lastIndex + k)%nat in
            let before := String.substring 0 i key in
            let matched := String.substring i n key in
            let after := String.substring (i + n) (String.length key - (i + n)) key in
            String.substring copied (i - copied) key
            +:+ expand_replacement tpl before matched after
            +:+ replace_from fuel' key re tpl (i + n)
                  (if Nat.eqb n 0 then i + 1 else i + n)%nat
        end
  end.

Definition regexp_replace_all (key : string) (re : RegExp) (tpl : string) : string :=
  replace_from (String.length key + 2) key re tpl O O.

(** [key.replace(re, tpl)] *)
Definition string_replace (key : string) (re : RegExp) (tpl : string) : string :=
  if re_global re then regexp_replace_all key re tpl
  else regexp_replace key re tpl.

(** The string from index [i] on. *)
Fixpoint string_drop (i : nat) (s : string) : string :=
  match i, s with
  | O, _ => s
  | S i', String _ s' => string_drop i' s'
  | S _, EmptyString => EmptyString
  end.

(** Regular expressions of the shape [[class]{lo,hi}] with an optional [$],
    which covers the default [idMatcher] and the ones of the test suite. *)
Record class_run : Type := mkClassRun {
  in_class : ascii -> bool;
  lo : nat;
  hi : option nat;
  at_end : bool
}.

Fixpoint run_length (cls : ascii -> bool) (s : string) : nat :=
  match s with
  | String c s' => if cls c then S (run_length cls s') else O
  | EmptyString => O
  end.

(** Length of the (greedy) match of [p] at the start of [s]. *)
Definition match_here (p : class_run) (s : string) : option nat :=
  let r := run_length (in_class p) s in
  let cap := match hi p with Some h => Nat.min r h | None => r end in
  if at_end p then
    if (Nat.eqb cap (String.length s) && Nat.leb (lo p) cap)%bool
    then Some cap else None
  else
    if Nat.leb (lo p) cap then Some cap else None.

Fixpoint search_from (p : class_run) (s : string) (i : nat) : option (nat * nat) :=
  match match_here p s with
  | Some n => Some (i, n)
  | None =>
      match s with
      | String _ s' => search_from p s' (S i)
      | EmptyString => None
      end
  end.

Definition regexp_of_class_run (p : class_run) : RegExp :=
  {| re_search := fun s i => search_from p (string_drop i s) O;
     re_global := false |}.

(** The same expression with the [g] flag. *)
Definition with_global (re : RegExp) : RegExp :=
  {| re_search := re_search re; re_global := true |}.

Definition is_lower (c : ascii) : bool :=
  ((97 <=? nat_of_ascii c) && (nat_of_ascii c <=? 122))%nat.

(** [/[a-z0-9]{24}$/] *)
Definition mongo_id_matcher : RegExp :=
  regexp_of_class_run
    {| in_class := fun c => is_lower c || is_digit c;
       lo := 24; hi := Some 24%nat; at_end := true |}.

(** [/\d+$/] and [/\d+/] *)
Definition trailing_digits : RegExp :=
  regexp_of_class_run
    {| in_class := is_digit; lo := 1; hi := None; at_end := true |}.

Definition some_digits : RegExp :=
  regexp_of_class_run
    {| in_class := is_digit; lo := 1; hi := None; at_end := false |}.

(** [/\d+/g] *)
Definition all_digits : RegExp := with_global some_digits.

(** ** Options *)

(** The properties of the [options] object that the module reads, plus
    [enforceRequestSpreading], which callers pass; a property that is
    not there reads as [undefined]. *)
Record Options : Type := mkOptions {
  requestLimit : jsval;
  timeWindow : jsval;
  idMatcher : jsval;
  idValue : jsval;
  createKey : jsval;
  rateLimitMessage : jsval;
  internalErrorMessage : jsval;
  enforceRequestSpreading : jsval
}.

(** [{}] *)
Definition emptyOptions : Options :=
  {| requestLimit := JUndefined; timeWindow := JUndefined;
     idMatcher := JUndefined; idValue := JUndefined;
     createKey := JUndefined; rateLimitMessage := JUndefined;
     internalErrorMessage := JUndefined;
     enforceRequestSpreading := JUndefined |}.

(** The second argument of the constructor: the options, given as the
    record of their properties, or any other value (nothing, a primitive, a
    function, an object given by its list of properties). *)
Inductive optarg : Type :=
| ArgOptions (o : Options)
| ArgOther (v : jsval).

(** [pluralize('second', n, true)] *)
Definition pluralize_second (n : jsnum) : string :=
  string_of_jsnum n +:+ " " +:+
  match n with
  | Num 1 => "second"
  | _ => "seconds"
  end.

(** [Math.ceil(ms / 1000)] *)
Definition ceil_seconds (ms : jsnum) : jsnum :=
  match ms with
  | Num z => Num ((z + 999) / 1000)
  | NaN => NaN
  end.

Definition secondsHuman (ms : jsnum) : string :=
  pluralize_second (ceil_seconds ms).

Definition default_createKey (req : request) : string :=
  "RL/" +:+ ip req +:+ "/" +:+ method req +:+ url req.

Definition default_rateLimitMessage (ttl : jsnum) : jsval :=
  JObj [("error"%string,
         JObj [("message"%string,
                JStr ("Rate limit reached. Try again in " +:+ secondsHuman ttl +:+ "."));
               ("timeout"%string, JNum ttl);
               ("type"%string, JStr "RATE_LIMIT")])].

Definition default_internalErrorMessage : jsval :=
  JObj [("error"%string,
         JObj [("message"%string, JStr "Internal server error.");
               ("type"%string, JStr "INTERNAL_SERVER_ERROR")])].

(** [defaultOptions].  A function value also has a result at the call site
    the module does not use it at: the default [createKey] applied to a
    number reads three missing properties off it, and the object the
    default [rateLimitMessage] returns would, as a key, print as
    ["[object Object]"]. *)
Definition defaultOptions : Options :=
  {| requestLimit := JNum (Num 60);
     timeWindow := JNum (Num 60);
     idMatcher := JRegExp mongo_id_matcher;
     idValue := JStr ":id";
     createKey := JFun default_createKey (fun _ => JStr "RL/undefined/undefinedundefined");
     rateLimitMessage :=
       JFun (fun _ => "[object Object]"%string) default_rateLimitMessage;
     internalErrorMessage := default_internalErrorMessage;
     enforceRequestSpreading := JUndefined |}.

(** [throw new Error(msg)] is the left injection. *)
Definition throws (A : Type) : Type := (string + A)%type.

(** [object.name]: the value of the last property of that name, or
    [undefined]. *)
Definition prop (fields : list (string * jsval)) (name : string) : jsval :=
  match find (fun kv => String.eqb kv.1 name) (rev fields) with
  | Some kv => kv.2
  | None => JUndefined
  end.

(** The option properties of any other object. *)
Definition options_of (v : jsval) : Options :=
  match v with
  | JObj fields =>
      {| requestLimit := prop fields "requestLimit";
         timeWindow := prop fields "timeWindow";
         idMatcher := prop fields "idMatcher";
         idValue := prop fields "idValue";
         createKey := prop fields "createKey";
         rateLimitMessage := prop fields "rateLimitMessage";
         internalErrorMessage := prop fields "internalErrorMessage";
         enforceRequestSpreading := prop fields "enforceRequestSpreading" |}
  | _ => emptyOptions
  end.

(** The checks of [validateOptions] on an object. *)
Definition checkOptions (options : Options) : throws Options :=
  if truthy (requestLimit options) &&
     negb (jstype_eqb (typeof (requestLimit options)) TNumber &&
           jgt (to_number (requestLimit options)) (Num 0))
  then inl "Request limit option must be a positive number."%string
  else if truthy (timeWindow options) &&
     negb (jstype_eqb (typeof (timeWindow options)) TNumber &&
           jgt (to_number (timeWindow options)) (Num 0))
  then inl "Time window option must be a positive number."%string
  else if truthy (idMatcher options) &&
     negb (jstype_eqb (typeof (idMatcher options)) TObject)
  then inl "ID matcher option must be a regular expression."%string
  else if truthy (idMatcher options) && truthy (idValue options) &&
     negb (jstype_eqb (typeof (idValue options)) TString)
  then inl "ID value option must be a string."%string
  else if truthy (createKey options) &&
     negb (jstype_eqb (typeof (createKey options)) TFunction)
  then inl "Create key option must be a function."%string
  else if truthy (rateLimitMessage options) &&
     negb (jstype_eqb (typeof (rateLimitMessage options)) TFunction ||
           jstype_eqb (typeof (rateLimitMessage options)) TObject)
  then inl "Rate limit message option must be a function or an object."%string
  else if truthy (internalErrorMessage options) &&
     negb (jstype_eqb (typeof (internalErrorMessage options)) TObject)
  then inl "Internal error message option must be an object."%string
  else inr options.

(** [validateOptions] *)
Definition validateOptions (a : optarg) : throws Options :=
  match a with
  | ArgOther v =>
      if negb (truthy v) then inr emptyOptions
      else if negb (jstype_eqb (typeof v) TObject)
      then inl "Options must be an object."%string
      else checkOptions (options_of v)
  | ArgOptions options => checkOptions options
  end.

(** lodash's [defaults(object, source)]: a property of [object] that is
    [undefined] takes the value it has in [source]. *)
Definition default_to (v d : jsval) : jsval :=
  match v with
  | JUndefined => d
  | _ => v
  end.

Definition defaults (object source : Options) : Options :=
  {| requestLimit := default_to (requestLimit object) (requestLimit source);
     timeWindow := default_to (timeWindow object) (timeWindow source);
     idMatcher := default_to (idMatcher object) (idMatcher source);
     idValue := default_to (idValue object) (idValue source);
     createKey := default_to (createKey object) (createKey source);
     rateLimitMessage := default_to (rateLimitMessage object) (rateLimitMessage source);
     internalErrorMessage :=
       default_to (internalErrorMessage object) (internalErrorMessage source);
     enforceRequestSpreading :=
       default_to (enforceRequestSpreading object) (enforceRequestSpreading source) |}.

(** [ExpressRedisRateLimit(cache, options)] up to [return rateLimit]: the
    options the returned middleware closes over, or the error thrown. *)
Definition ExpressRedisRateLimit (a : optarg) : throws Options :=
  match validateOptions a with
  | inl e => inl e
  | inr valid => inr (defaults valid defaultOptions)
  end.

(** ** The Redis database behind [cache] *)

(** One counter entry: the stored count and the milliseconds left before it
    expires ([None]: no expiry set). *)
Record entry : Type := mkEntry {
  stored : Z;
  expires_in : option Z
}.

Inductive command : Type :=
| EXISTS (k : string)
| GET (k : string)
| PTTL (k : string)
| INCR (k : string)
| PEXPIRE (k : string) (ms : jsnum).

Inductive cache_op : Type := OpExists | OpGet | OpPttl | OpIncr | OpPexpire.

Definition op_of (c : command) : cache_op :=
  match c with
  | EXISTS _ => OpExists
  | GET _ => OpGet
  | PTTL _ => OpPttl
  | INCR _ => OpIncr
  | PEXPIRE _ _ => OpPexpire
  end.

(** What the server does with a command: the error or the reply, and the
    database afterwards.  [INCR] creates a missing key at 1 and keeps the
    expiry of an existing one; [PEXPIRE] with a time that is not positive
    deletes the key, and one that is not an integer is refused. *)
Definition redis (c : command) (db : gmap string entry)
  : (string + jsval) * gmap string entry :=
  match c with
  | EXISTS k =>
      (inr (JNum (Num (match db !! k with Some _ => 1 | None => 0 end))), db)
  | GET k =>
      (inr (match db !! k with
            | Some e => JStr (string_of_Z (stored e))
            | None => JNull
            end), db)
  | PTTL k =>
      (inr (JNum (Num (match db !! k with
                       | Some e => match expires_in e with Some t => t | None => -1 end
                       | None => -2
                       end))), db)
  | INCR k =>
      match db !! k with
      | Some e =>
          (inr (JNum (Num (stored e + 1))),
           <[k := {| stored := stored e + 1; expires_in := expires_in e |}]> db)
      | None =>
          (inr (JNum (Num 1)), <[k := {| stored := 1; expires_in := None |}]> db)
      end
  | PEXPIRE k NaN =>
      (inl "ERR value is not an integer or out of range"%string, db)
  | PEXPIRE k (Num ms) =>
      match db !! k with
      | Some e =>
          (inr (JNum (Num 1)),
           if ms <=? 0 then delete k db
           else <[k := {| stored := stored e; expires_in := Some ms |}]> db)
      | None => (inr (JNum (Num 0)), db)
      end
  end.

(** [d] milliseconds pass: entries whose time is up are gone. *)
Definition age (d : Z) (e : entry) : option entry :=
  match expires_in e with
  | Some t => if t <=? d then None
              else Some {| stored := stored e; expires_in := Some (t - d) |}
  | None => Some e
  end.

Definition elapse (d : Z) (db : gmap string entry) : gmap string entry :=
  omap (age d) db.

(** ** The response and the world of one request *)

Record response : Type := mkResponse {
  status : option Z;
  body : option jsval;
  headers : gmap string jsval
}.

Record world : Type := mkWorld {
  db : gmap string entry;     (* the database *)
  trace : list command;       (* commands sent to the client, latest first *)
  res : response;             (* the Express response *)
  passed : bool;              (* [done()] was called *)
  settled : bool              (* the final callback of the waterfall ran *)
}.

Definition untouched : response :=
  {| status := None; body := None; headers := ∅ |}.

Definition arrival (d : gmap string entry) : world :=
  {| db := d; trace := []; res := untouched; passed := false; settled := false |}.

(** [res.status(code).json(value)] *)
Definition status_json (code : Z) (value : jsval) (w : world) : world :=
  {| db := db w; trace := trace w;
     res := {| status := Some code; body := Some value; headers := headers (res w) |};
     passed := passed w; settled := settled w |}.

(** [res.set({...})] *)
Definition set_headers (hs : list (string * jsval)) (w : world) : world :=
  {| db := db w; trace := trace w;
     res := {| status := status (res w); body := body (res w);
               headers := foldr (fun kv m => <[kv.1 := kv.2]> m) (headers (res w)) hs |};
     passed := passed w; settled := settled w |}.

(** [done()] *)
Definition done_ (w : world) : world :=
  {| db := db w; trace := trace w; res := res w;
     passed := true; settled := settled w |}.

(** What a callback is called with: [cb(error)] or [cb(null, args...)]. *)
Inductive outcome (A : Type) : Type :=
| Failure (error : string)
| Success (args : A).
Arguments Failure {A} error.
Arguments Success {A} args.

Definition callback (A : Type) : Type := outcome A -> world -> world.

(** The world once command [c] went out and left the database as [d]. *)
Definition sent (c : command) (d : gmap string entry) (w : world) : world :=
  {| db := d; trace := c :: trace w; res := res w;
     passed := passed w; settled := settled w |}.

(** A call on the client: the command is sent; when the client is at fault
    for this operation the callback gets an error and no reply and the
    database never sees the command, otherwise the server's answer. *)
Definition cache_call (faults : cache_op -> bool) (c : command)
    (cb : option string -> jsval -> world -> world) (w : world) : world :=
  if faults (op_of c) then cb (Some "store fault"%string) JUndefined (sent c (db w) w)
  else
    match redis c (db w) with
    | (inl e, _) => cb (Some e) JUndefined (sent c (db w) w)
    | (inr reply, db') => cb None reply (sent c db' w)
    end.

(** ** [async.waterfall]

    The library is a dependency (the 1.x line, contemporary with the
    [lodash/object/defaults] path the module requires).  There the final
    callback is wrapped in [_once]; the callback handed to a task is not
    guarded: called with an error it calls the final callback, called
    without one it starts the next task, each time it is called. *)
Definition once {A : Type} (fn : callback A) : callback A :=
  fun r w =>
    if settled w then w
    else
      let w' := fn r w in
      {| db := db w'; trace := trace w'; res := res w';
         passed := passed w'; settled := true |}.

Definition wrapIterator {A B : Type} (final : callback B)
    (task : A -> world -> world) : callback A :=
  fun r w =>
    match r with
    | Failure e => final (Failure e) w
    | Success args => task args w
    end.

Definition waterfall {A B C D E : Type}
    (t1 : callback A -> world -> world)
    (t2 : A -> callback B -> world -> world)
    (t3 : B -> callback C -> world -> world)
    (t4 : C -> callback D -> world -> world)
    (t5 : D -> callback E -> world -> world)
    (final : callback E) : world -> world :=
  let final := once final in
  let next5 := wrapIterator final (fun d => t5 d final) in
  let next4 := wrapIterator final (fun c => t4 c next5) in
  let next3 := wrapIterator final (fun b => t3 b next4) in
  let next2 := wrapIterator final (fun a => t2 a next3) in
  t1 next2.

(** ** The middleware *)

(** Index of the first occurrence of [pat] in [s], from offset [i]. *)
Fixpoint index_from (pat s : string) (i : nat) : option nat :=
  if String.prefix pat s then Some i
  else
    match s with
    | String _ s' => index_from pat s' (S i)
    | EmptyString => None
    end.

(** [key.replace(pattern, replacement)].  A pattern that is not a regular
    expression is searched for as text, once; a replacement that is not a
    string is printed.  [None]: the call is outside the model (a
    replacement function, or a value whose text is its source code). *)
Definition pattern_of (v : jsval) : option RegExp :=
  match v with
  | JRegExp r => Some r
  | JStr s =>
      Some {| re_search := fun k i =>
                match index_from s (string_drop i k) O with
                | Some j => Some (j, String.length s)
                | None => None
                end;
              re_global := false |}
  | JObj _ =>
      Some {| re_search := fun k i =>
                match index_from "[object Object]" (string_drop i k) O with
                | Some j => Some (j, 15%nat)
                | None => None
                end;
              re_global := false |}
  | _ => None
  end.

Definition text_of (v : jsval) : option string :=
  match v with
  | JStr s => Some s
  | JNum n => Some (string_of_jsnum n)
  | JBool b => Some (if b then "true" else "false")%string
  | JObj _ => Some "[object Object]"%string
  | _ => None
  end.

Definition js_replace (key : string) (pattern replacement : jsval) : option string :=
  match pattern_of pattern, text_of replacement with
  | Some re, Some tpl => Some (string_replace key re tpl)
  | _, _ => None
  end.

Section Middleware.

(** What [rateLimit] closes over: the options, and the client, of which
    the model keeps the operations it reports an error for. *)
Variable options : Options.
Variable faults : cache_op -> bool.

(** [replaceID] *)
Definition replaceID (key : string) : option string :=
  if truthy (idMatcher options) && truthy (idValue options)
  then js_replace key (idMatcher options) (idValue options)
  else Some key.

(** [replaceID(options.createKey(req))]; [None] also when [createKey] is
    not a function (the call throws a TypeError). *)
Definition deriveKey (req : request) : option string :=
  match createKey options with
  | JFun on_req _ => replaceID (on_req req)
  | _ => None
  end.

(** [requestsRemaining] *)
Definition requestsRemaining (count : jsnum) : jsnum :=
  let remaining := jsub (to_number (requestLimit options)) count in
  if jlt remaining (Num 0) then Num 0 else remaining.

(** [setRateLimitHeaders] *)
Definition setRateLimitHeaders (count ttl : jsnum) (atLimit : bool) : world -> world :=
  set_headers
    [("X-RateLimit-Limit"%string, requestLimit options);
     ("X-RateLimit-Remaining"%string, JNum (requestsRemaining count));
     ("X-RateLimit-Window"%string,
      JNum (jmul (to_number (timeWindow options)) (Num 1000)));
     ("X-RateLimit-Reset"%string, JNum ttl)].

(** [rateLimitGate] *)
Definition rateLimitGate : callback (jsnum * jsnum * bool) :=
  fun r w =>
    match r with
    | Failure error => status_json 500 (internalErrorMessage options) w
    | Success (count, ttl, atLimit) =>
        let w := setRateLimitHeaders count ttl atLimit w in
        if atLimit then
          let responseJSON :=
            match rateLimitMessage options with
            | JFun _ on_ttl => on_ttl ttl
            | message => message
            end in
          status_json 429 responseJSON w
        else done_ w
    end.

Section Tasks.

Variable key : string.

(** [if (error) next(error); next(null, args)]: there is no [return]
    after the first call, so the second one follows it. *)
Definition report {A : Type} (next : callback A) (error : option string)
    (args : A) (w : world) : world :=
  let w :=
    match error with
    | Some e => next (Failure e) w
    | None => w
    end in
  next (Success args) w.

(** [checkRequestExists] *)
Definition checkRequestExists (next : callback bool) : world -> world :=
  cache_call faults (EXISTS key) (fun error reply =>
    report next error (truthy (JNum (parseInt reply)))).

(** [getRequestCount] *)
Definition getRequestCount (exists_ : bool) (next : callback (bool * jsnum))
  : world -> world :=
  if exists_ then
    cache_call faults (GET key) (fun error reply =>
      report next error (exists_, jadd (parseInt reply) (Num 1)))
  else next (Success (exists_, Num 1)).

(** [getRequestTTL] *)
Definition getRequestTTL (a : bool * jsnum) (next : callback (jsnum * jsnum))
  : world -> world :=
  let '(exists_, count) := a in
  if exists_ then
    cache_call faults (PTTL key) (fun error reply =>
      report next error (count, parseInt reply))
  else next (Success (count, jmul (to_number (timeWindow options)) (Num 1000))).

(** [incrRequestCount] *)
Definition incrRequestCount (a : jsnum * jsnum)
    (next : callback (jsnum * jsnum * bool)) : world -> world :=
  let '(count, ttl) := a in
  let atLimit := jgt count (to_number (requestLimit options)) in
  if atLimit then next (Success (count, ttl, atLimit))
  else
    cache_call faults (INCR key) (fun error reply =>
      report next error (count, ttl, atLimit)).

(** [setRequestTTL] *)
Definition setRequestTTL (a : jsnum * jsnum * bool)
    (next : callback (jsnum * jsnum * bool)) : world -> world :=
  let '(count, ttl, atLimit) := a in
  if atLimit then next (Success (count, ttl, atLimit))
  else
    cache_call faults (PEXPIRE key ttl) (fun error reply =>
      report next error (count, ttl, atLimit)).

(** The body of [rateLimit] once the key is known. *)
Definition process : world -> world :=
  waterfall checkRequestExists getRequestCount getRequestTTL
            incrRequestCount setRequestTTL rateLimitGate.

End Tasks.

(** [rateLimit(req, res, done)] *)
Definition rateLimit (req : request) (w : world) : option world :=
  match deriveKey req with
  | Some key => Some (process key w)
  | None => None
  end.

End Middleware.

(** A client on which no operation fails. *)
Definition calm : cache_op -> bool := fun _ => false.

(** Requests one after the other, each [d] milliseconds after the one
    before (the first one [d] after the database was last seen), none of
    them hit by a store fault; the world each of them ends in.  Each
    request is served at one instant: no time passes between its commands
    (for the time they take, see [slow_call] below). *)
Fixpoint serve (options : Options) (reqs : list (Z * request))
    (d : gmap string entry) : list (option world) :=
  match reqs with
  | [] => []
  | (delay, req) :: rest =>
      let w := rateLimit options calm req (arrival (elapse delay d)) in
      w :: serve options rest
             (match w with Some w' => db w' | None => elapse delay d end)
  end.

(** Commands that change the database. *)
Definition is_write (c : command) : bool :=
  match c with
  | INCR _ | PEXPIRE _ _ => true
  | EXISTS _ | GET _ | PTTL _ => false
  end.

(** ** The waterfall in direct style

    One store call as the tasks make it: on an error the final callback is
    called with it and the task goes on with a missing reply. *)
Section Direct.

Variable options : Options.
Variable faults : cache_op -> bool.
Variable key : string.

Definition attempt (c : command) (w : world) : jsval * world :=
  if faults (op_of c) then
    (JUndefined,
     once (rateLimitGate options) (Failure "store fault"%string) (sent c (db w) w))
  else
    match redis c (db w) with
    | (inl e, _) =>
        (JUndefined, once (rateLimitGate options) (Failure e) (sent c (db w) w))
    | (inr reply, db') => (reply, sent c db' w)
    end.

(** Tasks 1 to 3: the count and the time to live the request goes by. *)
Definition observe (w : world) : jsnum * jsnum * world :=
  let r1 := attempt (EXISTS key) w in
  let exists_ := truthy (JNum (parseInt r1.1)) in
  let r2 := if exists_ then attempt (GET key) r1.2 else (JUndefined, r1.2) in
  let count := if exists_ then jadd (parseInt r2.1) (Num 1) else Num 1 in
  let r3 := if exists_ then attempt (PTTL key) r2.2 else (JUndefined, r2.2) in
  let ttl := if exists_ then parseInt r3.1
             else jmul (to_number (timeWindow options)) (Num 1000) in
  (count, ttl, r3.2).

(** Tasks 4 and 5: nothing at the limit, else [INCR] then [PEXPIRE]. *)
Definition commit (ttl : jsnum) (atLimit : bool) (w : world) : world :=
  if atLimit then w
  else (attempt (PEXPIRE key ttl) (attempt (INCR key) w).2).2.

Definition direct (w : world) : world :=
  let '(count, ttl, w3) := observe w in
  let atLimit := jgt count (to_number (requestLimit options)) in
  once (rateLimitGate options) (Success (count, ttl, atLimit))
       (commit ttl atLimit w3).

(** What tasks 1 to 3 find when nothing fails. *)
Definition seen_count (d : gmap string entry) : jsnum :=
  match d !! key with
  | Some e => Num (stored e + 1)
  | None => Num 1
  end.

Definition seen_ttl (d : gmap string entry) : jsnum :=
  match d !! key with
  | Some e => Num (match expires_in e with Some t => t | None => -1 end)
  | None => jmul (to_number (timeWindow options)) (Num 1000)
  end.

Definition seen_reads (d : gmap string entry) : list command :=
  match d !! key with
  | Some _ => [PTTL key; GET key; EXISTS key]
  | None => [EXISTS key]
  end.

(** The world in which the final callback is called when nothing fails,
    and the one it leaves. *)
Definition at_limit (d : gmap string entry) : bool :=
  jgt (seen_count d) (to_number (requestLimit options)).

Definition committed (d : gmap string entry) : world :=
  if at_limit d then
    {| db := d; trace := seen_reads d;
       res := untouched; passed := false; settled := false |}
  else
    {| db := (redis (PEXPIRE key (seen_ttl d)) (redis (INCR key) d).2).2;
       trace := PEXPIRE key (seen_ttl d) :: INCR key :: seen_reads d;
       res := untouched; passed := false; settled := false |}.

Definition verdict (d : gmap string entry) : world :=
  once (rateLimitGate options)
       (Success (seen_count d, seen_ttl d, at_limit d)) (committed d).

(** While the request is being processed the response is either still
    untouched or the 500 of a reported fault. *)
Definition failed_response : response :=
  {| status := Some 500; body := Some (internalErrorMessage options); headers := ∅ |}.

Definition inflight (w : world) : Prop :=
  passed w = false /\
  res w = if settled w then failed_response else untouched.

End Direct.

(** ** Observations on a run *)

(** The four headers [setRateLimitHeaders] writes for a decision. *)
Definition decision_headers (options : Options) (count ttl : jsnum)
  : gmap string jsval :=
  <["X-RateLimit-Limit"%string := requestLimit options]>
    (<["X-RateLimit-Remaining"%string := JNum (requestsRemaining options count)]>
       (<["X-RateLimit-Window"%string :=
            JNum (jmul (to_number (timeWindow options)) (Num 1000))]>
          (<["X-RateLimit-Reset"%string := JNum ttl]> ∅))).

(** [rateLimitMessage] rendered for [ttl]. *)
Definition rejection_body (options : Options) (ttl : jsnum) : jsval :=
  match rateLimitMessage options with
  | JFun _ on_ttl => on_ttl ttl
  | message => message
  end.

(** The request was let through: [done()] called, no response written. *)
Definition allowed (w : option world) : Prop :=
  exists w', w = Some w' /\ passed w' = true /\ status (res w') = None.

(** The request was answered with status 429 and not let through. *)
Definition rejected (w : option world) : Prop :=
  exists w', w = Some w' /\ passed w' = false /\ status (res w') = Some 429.

(** The number in the [X-RateLimit-Remaining] header. *)
Definition remaining_of (w : option world) : option Z :=
  match w with
  | Some w' =>
      match headers (res w') !! "X-RateLimit-Remaining"%string with
      | Some (JNum (Num z)) => Some z
      | _ => None
      end
  | None => None
  end.

(** Milliseconds between the first and the last request of a list. *)
Definition total_delay (reqs : list (Z * request)) : Z :=
  foldr (fun r acc => r.1 + acc) 0 reqs.

Definition span (reqs : list (Z * request)) : Z :=
  match reqs with
  | [] => 0
  | _ :: rest => total_delay rest
  end.

(** Requests for one key, in order of time. *)
Definition same_key (options : Options) (key : string) (reqs : list (Z * request))
  : Prop :=
  Forall (fun r => 0 <= r.1 /\ deriveKey options r.2 = Some key) reqs.

(** The answer to the [n]-th request of a window under the limit [N]:
    let through up to the limit and rejected beyond it, with the quota
    left in the header, and a stored count within the limit. *)
Definition answered (key : string) (N n : Z) (w : option world) : Prop :=
  (n <= N -> allowed w) /\
  (N < n -> rejected w) /\
  remaining_of w = Some (Z.max 0 (N - n)) /\
  (forall w' e, w = Some w' -> db w' !! key = Some e -> stored e <= N).

(** ** Sample inputs *)

(** [GET /items] from the loopback address. *)
Definition req_items : request :=
  {| ip := "::1"; method := "GET"; url := "/items" |}.

(** [GET /items/id] from another address. *)
Definition req_item (id : string) : request :=
  {| ip := "10.0.0.1"; method := "GET"; url := "/items/" +:+ id |}.

(** A client whose [exists] reports an error; its other operations work. *)
Definition exists_fails : cache_op -> bool :=
  fun op => match op with OpExists => true | _ => false end.

(** A client whose [get] reports an error; its other operations work. *)
Definition get_fails : cache_op -> bool :=
  fun op => match op with OpGet => true | _ => false end.

(** [{ requestLimit: 10, enforceRequestSpreading: flag }], the options of
    the test of request spreading. *)
Definition spreading_options (flag : bool) : Options :=
  {| requestLimit := JNum (Num 10); timeWindow := JUndefined;
     idMatcher := JUndefined; idValue := JUndefined;
     createKey := JUndefined; rateLimitMessage := JUndefined;
     internalErrorMessage := JUndefined;
     enforceRequestSpreading := JBool flag |}.

(** [{ idMatcher: re }], as the tests of [idMatcher] pass it. *)
Definition matcher_only (re : RegExp) : Options :=
  {| requestLimit := JUndefined; timeWindow := JUndefined;
     idMatcher := JRegExp re; idValue := JUndefined;
     createKey := JUndefined; rateLimitMessage := JUndefined;
     internalErrorMessage := JUndefined;
     enforceRequestSpreading := JUndefined |}.

(** [{ requestLimit: n }] *)
Definition limit_only (n : Z) : Options :=
  {| requestLimit := JNum (Num n); timeWindow := JUndefined;
     idMatcher := JUndefined; idValue := JUndefined;
     createKey := JUndefined; rateLimitMessage := JUndefined;
     internalErrorMessage := JUndefined;
     enforceRequestSpreading := JUndefined |}.

(** The options the middleware runs on when given [{ requestLimit: n }]. *)
Definition limited (n : Z) : Options := defaults (limit_only n) defaultOptions.

(** The key of [req_items] under the default [createKey]. *)
Definition items_key : string := "RL/::1/GET/items".

(** The database after one request for [items_key], 10 ms later. *)
Definition one_request : gmap string entry :=
  {[ items_key := {| stored := 1; expires_in := Some 59990 |} ]}.

(** Where a second request ends under [{ requestLimit: 1 }]. *)
Definition second_of_one : world :=
  process (limited 1) calm items_key (arrival one_request).

(** Three requests for [items_key], 10 ms apart. *)
Definition three_requests : list (Z * request) :=
  [(0, req_items); (10, req_items); (10, req_items)].

(** A replacement string without [$] stands for itself. *)
Fixpoint no_dollar (v : string) : bool :=
  match v with
  | String c rest => negb (Ascii.eqb c "$"%char) && no_dollar rest
  | EmptyString => true
  end.

(** ** The test helpers and further inputs *)

(** One character of [helpers.randomString]:
    [char >= 10 ? String.fromCharCode(char + 55) : '' + char]. *)
Definition random_piece (char : nat) : string :=
  if (10 <=? char)%nat then String (ascii_of_nat (char + 55)) EmptyString
  else string_of_Z (Z.of_nat char).

(** [helpers.randomString(length, includeAlphas)]; [rnd n max] is what
    [Math.floor(Math.random() * max)] gives in the [n]-th turn of the loop. *)
Definition randomString (rnd : nat -> nat -> nat) (length : nat)
    (includeAlphas : bool) : string :=
  let max := if includeAlphas then 36%nat else 10%nat in
  fold_left (fun output n => output +:+ random_piece (rnd n max)) (seq 0 length) "".

Definition is_upper (c : ascii) : bool :=
  ((65 <=? nat_of_ascii c) && (nat_of_ascii c <=? 90))%nat.

(** [/[A-Z0-9]{20}$/], the [idMatcher] of the tests for ids with letters. *)
Definition upper_id_matcher : RegExp :=
  regexp_of_class_run
    {| in_class := fun c => is_upper c || is_digit c;
       lo := 20; hi := Some 20%nat; at_end := true |}.

(** [{ createKey: null }] *)
Definition null_createKey : Options :=
  {| requestLimit := JUndefined; timeWindow := JUndefined;
     idMatcher := JUndefined; idValue := JUndefined;
     createKey := JNull; rateLimitMessage := JUndefined;
     internalErrorMessage := JUndefined;
     enforceRequestSpreading := JUndefined |}.

(** [{ createKey: 'key' }] *)
Definition text_createKey : Options :=
  {| requestLimit := JUndefined; timeWindow := JUndefined;
     idMatcher := JUndefined; idValue := JUndefined;
     createKey := JStr "key"; rateLimitMessage := JUndefined;
     internalErrorMessage := JUndefined;
     enforceRequestSpreading := JUndefined |}.

(** A client whose [pexpire] reports an error; its other operations work. *)
Definition pexpire_fails : cache_op -> bool :=
  fun op => match op with OpPexpire => true | _ => false end.

(** The key a command is about. *)
Definition key_of (c : command) : string :=
  match c with
  | EXISTS k | GET k | PTTL k | INCR k | PEXPIRE k _ => k
  end.

(** The number in the [X-RateLimit-Reset] header. *)
Definition reset_of (w : option world) : option Z :=
  match w with
  | Some w' =>
      match headers (res w') !! "X-RateLimit-Reset"%string with
      | Some (JNum (Num z)) => Some z
      | _ => None
      end
  | None => None
  end.

(** A request for [key] under way on the database [d]: so far it has sent
    [EXISTS key] first and then only commands about [key], and has left
    the entries of all other keys as they were. *)
Definition on_key (options : Options) (key : string) (d : gmap string entry)
    (w : world) : Prop :=
  inflight options w /\
  (forall k', k' <> key -> db w !! k' = d !! k') /\
  Forall (fun c => key_of c = key) (trace w) /\
  exists cmds, trace w = cmds ++ [EXISTS key].

(** [{ timeWindow: t }] and the options the middleware then runs on. *)
Definition window_only (t : Z) : Options :=
  {| requestLimit := JUndefined; timeWindow := JNum (Num t);
     idMatcher := JUndefined; idValue := JUndefined;
     createKey := JUndefined; rateLimitMessage := JUndefined;
     internalErrorMessage := JUndefined;
     enforceRequestSpreading := JUndefined |}.

Definition windowed (t : Z) : Options := defaults (window_only t) defaultOptions.

(** A database in which [items_key] was counted once and has no expiry. *)
Definition stranded : gmap string entry :=
  {[ items_key := {| stored := 1; expires_in := None |} ]}.

(** Requests for two different paths, 10 ms apart, and their keys. *)
Definition two_paths : list (Z * request) :=
  [(0, req_item "5"); (10, req_item "6")].

Definition two_keys : list string :=
  ["RL/10.0.0.1/GET/items/5"; "RL/10.0.0.1/GET/items/6"]%string.

(** [{ requestLimit: n, idMatcher: false }], as the tests switch the
    matcher off. *)
Definition matcher_off (n : Z) : Options :=
  {| requestLimit := JNum (Num n); timeWindow := JUndefined;
     idMatcher := JBool false; idValue := JUndefined;
     createKey := JUndefined; rateLimitMessage := JUndefined;
     internalErrorMessage := JUndefined;
     enforceRequestSpreading := JUndefined |}.

(** [m] is exactly [k] characters, all of the class [cls]. *)
Definition is_run (cls : ascii -> bool) (k : nat) (m : string) : bool :=
  Nat.eqb (String.length m) k && Nat.eqb (run_length cls m) k.

(** The class of [/[a-z0-9]{24}$/]. *)
Definition lower_alnum (c : ascii) : bool := is_lower c || is_digit c.

(** The class of [/[A-Z0-9]{20}$/]. *)
Definition upper_alnum (c : ascii) : bool := is_upper c || is_digit c.

(** [GET base/id] requests from one address, with the delay before each. *)
Definition id_requests (ip0 method0 base : string) (ids : list (Z * string))
  : list (Z * request) :=
  map (fun r => (r.1, {| ip := ip0; method := method0; url := base +:+ r.2 |})) ids.

(** Three ids as MongoDB prints them. *)
Definition three_ids : list (Z * string) :=
  [(0, "507f1f77bcf86cd799439011"%string);
   (10, "507f191e810c19729de860ea"%string);
   (10, "00000020f51bb4362eee2a4d"%string)].

(** The stored count of [key], 0 when there is none. *)
Definition count_at (key : string) (d : gmap string entry) : Z :=
  match d !! key with
  | Some e => stored e
  | None => 0
  end.

(** A request under way that has not met a fault so far. *)
Definition unfaulted (options : Options) (faults : cache_op -> bool) (w : world)
  : Prop :=
  inflight options w /\
  (settled w = false -> Forall (fun c => faults (op_of c) = false) (trace w)).

(** ** Commands that take time

    The tasks again, over any way [call] of reaching the store: with
    [cache_call faults] for it they are the tasks of the middleware. *)
Section Client.

Variable options : Options.
Variable call : command -> (option string -> jsval -> world -> world) ->
                world -> world.
Variable key : string.

Definition checkRequestExists_on (next : callback bool) : world -> world :=
  call (EXISTS key) (fun error reply =>
    report next error (truthy (JNum (parseInt reply)))).

Definition getRequestCount_on (exists_ : bool) (next : callback (bool * jsnum))
  : world -> world :=
  if exists_ then
    call (GET key) (fun error reply =>
      report next error (exists_, jadd (parseInt reply) (Num 1)))
  else next (Success (exists_, Num 1)).

Definition getRequestTTL_on (a : bool * jsnum) (next : callback (jsnum * jsnum))
  : world -> world :=
  let '(exists_, count) := a in
  if exists_ then
    call (PTTL key) (fun error reply =>
      report next error (count, parseInt reply))
  else next (Success (count, jmul (to_number (timeWindow options)) (Num 1000))).

Definition incrRequestCount_on (a : jsnum * jsnum)
    (next : callback (jsnum * jsnum * bool)) : world -> world :=
  let '(count, ttl) := a in
  let atLimit := jgt count (to_number (requestLimit options)) in
  if atLimit then next (Success (count, ttl, atLimit))
  else
    call (INCR key) (fun error reply =>
      report next error (count, ttl, atLimit)).

Definition setRequestTTL_on (a : jsnum * jsnum * bool)
    (next : callback (jsnum * jsnum * bool)) : world -> world :=
  let '(count, ttl, atLimit) := a in
  if atLimit then next (Success (count, ttl, atLimit))
  else
    call (PEXPIRE key ttl) (fun error reply =>
      report next error (count, ttl, atLimit)).

Definition process_on : world -> world :=
  waterfall checkRequestExists_on getRequestCount_on getRequestTTL_on
            incrRequestCount_on setRequestTTL_on (rateLimitGate options).

End Client.

(** The world [ms] milliseconds later. *)
Definition later (ms : Z) (w : world) : world :=
  {| db := elapse ms (db w); trace := trace w; res := res w;
     passed := passed w; settled := settled w |}.

(** A client whose commands take time: [lag op] milliseconds pass between
    the moment the task before has its reply (for [exists], the arrival of
    the request) and the moment the server executes the command. *)
Definition slow_call (lag : cache_op -> Z) (faults : cache_op -> bool) (c : command)
    (cb : option string -> jsval -> world -> world) (w : world) : world :=
  cache_call faults c cb (later (lag (op_of c)) w).

(** The time a request takes up to the command of task 3, and up to that
    of task 5. *)
Definition read_lag (lag : cache_op -> Z) : Z :=
  lag OpExists + lag OpGet + lag OpPttl.

Definition write_lag (lag : cache_op -> Z) : Z :=
  lag OpIncr + lag OpPexpire.

(** Commands 3 ms apart. *)
Definition three_ms : cache_op -> Z := fun _ => 3.




(** The one command the server refuses, whatever it holds: [PEXPIRE] with
    a time that is not a number. *)
Definition refused (c : command) : bool :=
  match c with
  | PEXPIRE _ NaN => true
  | _ => false
  end.

(** A command whose callback is called with an error: the client is at
    fault for it or the server refuses it. *)
Definition erred (faults : cache_op -> bool) (c : command) : bool :=
  faults (op_of c) || refused c.

(** A request under way whose final callback has run exactly when one of
    the commands sent so far reported an error. *)
Definition accounted (options : Options) (faults : cache_op -> bool) (w : world)
  : Prop :=
  inflight options w /\
  (settled w = true <-> Exists (fun c => erred faults c = true) (trace w)).

(** * Properties *)

(** ** The models of [replace] and [parseInt] on examples *)

(** ['RL/10.0.0.1/GET/items/5'.replace(/\d+/g, ':id')],
    ['a12b34'.replace(/\d+/g, "<$&|$`|$'>")] and, with empty matches,
    ['a1b'.replace(/\d*/g, '-')]. *)
Example all_digits_example :
  string_replace "RL/10.0.0.1/GET/items/5" all_digits ":id"
  = "RL/:id.:id.:id.:id/GET/items/:id"%string.
Proof. reflexivity. Qed.

Example all_digits_patterns_example :
  string_replace "a12b34" all_digits "<$&|$`|$'>" = "a<12|a|b34>b<34|a12b|>"%string.
Proof. reflexivity. Qed.

Example empty_matches_example :
  string_replace "a1b"
    (with_global (regexp_of_class_run
       {| in_class := is_digit; lo := 0; hi := None; at_end := false |})) "-"
  = "-a--b-"%string.
Proof. reflexivity. Qed.

Example mongo_id_example :
  regexp_replace "RL/::1/GET/items/507f1f77bcf86cd799439011" mongo_id_matcher ":id"
  = "RL/::1/GET/items/:id"%string.
Proof. reflexivity. Qed.

Example digits_example :
  regexp_replace "a12b34" some_digits "<$&|$`|$'|$$>" = "a<12|a|b34|$>b34"%string.
Proof. reflexivity. Qed.

Example parse_example :
  parseInt (JStr "  -42px") = Num (-42) /\
  parseInt (JStr (string_of_Z 17)) = Num 17 /\
  parseInt JUndefined = NaN.
Proof. repeat split; reflexivity. Qed.

(** ** Decimal replies read back by [parseInt] *)

Lemma digit_prefix_digits (u : Decimal.uint) :
  digit_prefix (NilEmpty.string_of_uint u) = NilEmpty.string_of_uint u.
Proof.
  induction u; simpl; try rewrite IHu; reflexivity.
Qed.

Lemma parse_digits_uint (neg : bool) (u : Decimal.uint) :
  u <> Decimal.Nil ->
  parse_digits neg (NilEmpty.string_of_uint u)
  = Num (Z.of_int (if neg then Decimal.Neg u else Decimal.Pos u)).
Proof.
  intros Hu. unfold parse_digits.
  rewrite digit_prefix_digits, NilEmpty.usu.
  destruct u; simpl; congruence.
Qed.

Lemma parse_decimal_uint (u : Decimal.uint) :
  u <> Decimal.Nil ->
  parse_decimal (NilEmpty.string_of_uint u) = Num (Z.of_int (Decimal.Pos u)).
Proof.
  intros Hu. rewrite <- (parse_digits_uint false u Hu).
  destruct u; try congruence; reflexivity.
Qed.

Lemma parseInt_string_of_Z (z : Z) : parseInt (JStr (string_of_Z z)) = Num z.
Proof.
  unfold string_of_Z. simpl.
  rewrite <- (DecimalZ.of_to z) at 2.
  destruct z as [|p|p]; simpl Z.to_int; simpl NilEmpty.string_of_int.
  - reflexivity.
  - apply parse_decimal_uint, DecimalPos.Unsigned.to_uint_nonnil.
  - unfold parse_decimal. simpl skip_space.
    apply (parse_digits_uint true), DecimalPos.Unsigned.to_uint_nonnil.
Qed.

(** ** The waterfall against its direct form *)

Section DirectFacts.

Variable options : Options.
Variable faults : cache_op -> bool.
Variable key : string.

Lemma cache_call_report {A : Type} (next : callback A) (c : command)
    (f : jsval -> A) (w : world) :
  (forall e w', next (Failure e) w' = once (rateLimitGate options) (Failure e) w') ->
  cache_call faults c (fun error reply => report next error (f reply)) w
  = next (Success (f (attempt options faults c w).1)) (attempt options faults c w).2.
Proof.
  intros Hnext. unfold cache_call, attempt, report.
  destruct (faults (op_of c)); [now rewrite Hnext|].
  destruct (redis c (db w)) as [[e|reply] d']; [now rewrite Hnext|reflexivity].
Qed.

Lemma process_direct (w : world) :
  process options faults key w = direct options faults key w.
Proof.
  unfold process, waterfall, direct, observe, commit, checkRequestExists.
  rewrite cache_call_report by reflexivity.
  cbn [wrapIterator]. unfold getRequestCount.
  destruct (truthy (JNum (parseInt (attempt options faults (EXISTS key) w).1))).
  - rewrite (cache_call_report _ _ (fun reply => (true, jadd (parseInt reply) (Num 1))))
      by reflexivity.
    cbn [wrapIterator getRequestTTL].
    rewrite (cache_call_report _ _ (fun reply => (_, parseInt reply))) by reflexivity.
    cbn [wrapIterator incrRequestCount].
    destruct (jgt _ _); [reflexivity|].
    rewrite (cache_call_report _ _ (fun _ => (_, _, false))) by reflexivity.
    cbn [wrapIterator setRequestTTL].
    now rewrite (cache_call_report _ _ (fun _ => (_, _, false))) by reflexivity.
  - cbn [wrapIterator getRequestTTL incrRequestCount].
    destruct (jgt _ _); [reflexivity|].
    rewrite (cache_call_report _ _ (fun _ => (_, _, false))) by reflexivity.
    cbn [wrapIterator setRequestTTL].
    now rewrite (cache_call_report _ _ (fun _ => (_, _, false))) by reflexivity.
Qed.

Lemma inflight_arrival (d : gmap string entry) : inflight options (arrival d).
Proof. split; reflexivity. Qed.

Lemma once_failure_inflight (e : string) (c : command) (d : gmap string entry)
    (w : world) :
  inflight options w ->
  let w' := once (rateLimitGate options) (Failure e) (sent c d w) in
  inflight options w' /\ settled w' = true /\ db w' = d /\ trace w' = c :: trace w.
Proof.
  intros [Hp Hr]. unfold once, inflight. cbn.
  destruct (settled w) eqn:Hs; cbn; rewrite ?Hs, ?Hp, ?Hr; auto.
Qed.

Lemma attempt_inflight (c : command) (w : world) :
  inflight options w -> inflight options (attempt options faults c w).2.
Proof.
  intros Hw. unfold attempt.
  destruct (faults (op_of c)); [now apply once_failure_inflight|].
  destruct (redis c (db w)) as [[e|reply] d'];
    [now apply once_failure_inflight|exact Hw].
Qed.

Lemma attempt_trace (c : command) (w : world) :
  inflight options w -> trace (attempt options faults c w).2 = c :: trace w.
Proof.
  intros Hw. unfold attempt.
  destruct (faults (op_of c)); [now apply once_failure_inflight|].
  destruct (redis c (db w)) as [[e|reply] d'];
    [now apply once_failure_inflight|reflexivity].
Qed.

Lemma redis_read (c : command) (d : gmap string entry) :
  is_write c = false -> (redis c d).2 = d.
Proof. destruct c; cbn; congruence. Qed.

Lemma attempt_read (c : command) (w : world) :
  inflight options w -> is_write c = false -> db (attempt options faults c w).2 = db w.
Proof.
  intros Hw Hc. unfold attempt.
  destruct (faults (op_of c)); [now apply once_failure_inflight|].
  pose proof (redis_read c (db w) Hc) as Hd.
  destruct (redis c (db w)) as [[e|reply] d'];
    [now apply once_failure_inflight|exact Hd].
Qed.

(** An attempt after which the waterfall is not settled went through:
    no fault, and the server's reply. *)
Lemma attempt_unsettled (c : command) (w : world) :
  inflight options w ->
  settled (attempt options faults c w).2 = false ->
  settled w = false /\ faults (op_of c) = false /\
  exists reply, redis c (db w) = (inr reply, (redis c (db w)).2) /\
    attempt options faults c w = (reply, sent c (redis c (db w)).2 w).
Proof.
  intros Hw. unfold attempt.
  destruct (faults (op_of c)).
  - destruct (once_failure_inflight "store fault" c (db w) w Hw) as (_ & Hs & _).
    cbn [snd]. congruence.
  - destruct (redis c (db w)) as [[e|reply] d'].
    + destruct (once_failure_inflight e c (db w) w Hw) as (_ & Hs & _).
      cbn [snd]. congruence.
    + cbn. eauto.
Qed.

Lemma attempt_settled (c : command) (w : world) :
  inflight options w ->
  settled (attempt options faults c w).2 = false -> settled w = false.
Proof. intros Hw Hs. now destruct (attempt_unsettled c w Hw Hs). Qed.

Lemma attempt_reply (c : command) (w : world) :
  inflight options w ->
  settled (attempt options faults c w).2 = false ->
  redis c (db w) = (inr (attempt options faults c w).1, db (attempt options faults c w).2).
Proof.
  intros Hw Hs. destruct (attempt_unsettled c w Hw Hs) as (_ & _ & reply & Hr & Ha).
  now rewrite Ha.
Qed.

Lemma inflight_unsettled (w : world) :
  inflight options w -> settled w = false ->
  w = {| db := db w; trace := trace w; res := untouched;
         passed := false; settled := false |}.
Proof.
  intros [Hp Hr] Hs. destruct w as [d t r p s]. cbn in *. subst.
  reflexivity.
Qed.

(** Tasks 1 to 3 only read; when they leave the waterfall unsettled, what
    they pass on is what the database holds. *)
Lemma observe_facts (w : world) :
  inflight options w ->
  let '(count, ttl, w3) := observe options faults key w in
  inflight options w3 /\ db w3 = db w /\
  (exists cmds, trace w3 = cmds ++ trace w /\
                forallb (fun c => negb (is_write c)) cmds = true) /\
  (settled w3 = false ->
   count = seen_count key (db w) /\ ttl = seen_ttl options key (db w) /\
   trace w3 = seen_reads key (db w) ++ trace w).
Proof.
  intros Hw. unfold observe.
  set (a1 := attempt options faults (EXISTS key) w).
  assert (H1 : inflight options a1.2) by now apply attempt_inflight.
  assert (D1 : db a1.2 = db w) by now apply attempt_read.
  assert (T1 : trace a1.2 = EXISTS key :: trace w) by now apply attempt_trace.
  assert (R1 : settled a1.2 = false ->
               a1.1 = JNum (Num (match db w !! key with Some _ => 1 | None => 0 end))).
  { intros Hs. pose proof (attempt_reply _ _ Hw Hs) as Hr. cbn in Hr.
    fold a1 in Hr. congruence. }
  destruct (truthy (JNum (parseInt a1.1))) eqn:Hex.
  - set (a2 := attempt options faults (GET key) a1.2).
    assert (H2 : inflight options a2.2) by now apply attempt_inflight.
    assert (D2 : db a2.2 = db a1.2) by now apply attempt_read.
    assert (T2 : trace a2.2 = GET key :: trace a1.2) by now apply attempt_trace.
    set (a3 := attempt options faults (PTTL key) a2.2).
    split; [|split; [|split; [|intros H; split; [|split]]]].
    + now apply attempt_inflight.
    + unfold a3. rewrite attempt_read by easy. congruence.
    + exists [PTTL key; GET key; EXISTS key]. split; [|reflexivity].
      unfold a3. rewrite attempt_trace by easy. now rewrite T2, T1.
    + pose proof (attempt_settled _ _ H2 H) as S2.
      pose proof (attempt_settled _ _ H1 S2) as S1.
      pose proof (attempt_reply _ _ H1 S2) as G. fold a2 in G. cbn in G.
      rewrite (R1 S1) in Hex. unfold seen_count.
      rewrite D1 in G. destruct (db w !! key) as [e|]; [|discriminate Hex].
      inversion G as [[G1 G2]]. now rewrite parseInt_string_of_Z.
    + pose proof (attempt_settled _ _ H2 H) as S2.
      pose proof (attempt_settled _ _ H1 S2) as S1.
      pose proof (attempt_reply _ _ H2 H) as G. fold a3 in G. cbn in G.
      rewrite (R1 S1) in Hex. unfold seen_ttl.
      rewrite D2, D1 in G. destruct (db w !! key) as [e|]; [|discriminate Hex].
      inversion G as [[G1 G2]]. reflexivity.
    + pose proof (attempt_settled _ _ H2 H) as S2.
      pose proof (attempt_settled _ _ H1 S2) as S1.
      rewrite (R1 S1) in Hex. unfold seen_reads.
      destruct (db w !! key) as [e|]; [|discriminate Hex].
      unfold a3. rewrite attempt_trace by easy. now rewrite T2, T1.
  - cbn [fst snd].
    split; [|split; [|split; [|intros H; split; [|split]]]]; auto.
    + exists [EXISTS key]. now rewrite T1.
    + rewrite (R1 H) in Hex. unfold seen_count.
      now destruct (db w !! key).
    + rewrite (R1 H) in Hex. unfold seen_ttl.
      now destruct (db w !! key).
    + rewrite (R1 H) in Hex. unfold seen_reads.
      now destruct (db w !! key).
Qed.

(** Tasks 4 and 5 do nothing at the limit. *)
Lemma commit_facts (ttl : jsnum) (atLimit : bool) (w : world) :
  inflight options w ->
  let w5 := commit options faults key ttl atLimit w in
  inflight options w5 /\
  (settled w5 = false ->
   settled w = false /\
   (atLimit = false ->
    db w5 = (redis (PEXPIRE key ttl) (redis (INCR key) (db w)).2).2 /\
    trace w5 = PEXPIRE key ttl :: INCR key :: trace w)).
Proof.
  intros Hw. unfold commit. destruct atLimit; cbn zeta.
  - split; [assumption|]. intros Hs. split; [assumption|discriminate].
  - set (a4 := attempt options faults (INCR key) w).
    assert (H4 : inflight options a4.2) by now apply attempt_inflight.
    split; [now apply attempt_inflight|].
    intros Hs.
    pose proof (attempt_settled _ _ H4 Hs) as S4.
    split; [now apply (attempt_settled _ _ Hw S4)|]. intros _.
    pose proof (attempt_reply _ _ H4 Hs) as G5.
    pose proof (attempt_reply _ _ Hw S4) as G4. fold a4 in G4.
    rewrite attempt_trace by easy. unfold a4 at 2. rewrite attempt_trace by easy.
    split; [|reflexivity].
    rewrite G4. cbn [snd]. now rewrite G5.
Qed.

(** Every request ends in one of two ways: a fault was reported and the
    response is the 500, or the final callback got the decision made
    from what the database holds. *)
Lemma process_outcome (d : gmap string entry) :
  let w' := process options faults key (arrival d) in
  (res w' = failed_response options /\ passed w' = false /\ settled w' = true) \/
  w' = verdict options key d.
Proof.
  intros w'. subst w'. rewrite process_direct. unfold direct.
  pose proof (observe_facts (arrival d) (inflight_arrival d)) as Ho.
  destruct (observe options faults key (arrival d)) as [[count ttl] w3].
  destruct Ho as (H3 & D3 & _ & O3).
  set (atLimit := jgt count (to_number (requestLimit options))).
  pose proof (commit_facts ttl atLimit w3 H3) as Hc. cbn zeta in Hc.
  set (w5 := commit options faults key ttl atLimit w3) in *.
  destruct Hc as (H5 & C5).
  destruct (settled w5) eqn:S5.
  - left. unfold once. rewrite S5. destruct H5 as [Hp Hr].
    rewrite S5 in Hr. auto.
  - right. destruct (C5 eq_refl) as (S3 & C5').
    destruct (O3 S3) as (-> & -> & T3). cbn [db arrival] in *.
    unfold verdict. fold (at_limit options key d) in atLimit.
    f_equal. rewrite (inflight_unsettled w5 H5 S5). unfold committed.
    fold atLimit. unfold w5 at 1 2. unfold commit.
    destruct atLimit eqn:Ha.
    + rewrite D3, T3. cbn. now rewrite app_nil_r.
    + destruct (C5' eq_refl) as (Hd & Ht). unfold w5, commit in Hd, Ht.
      rewrite Hd, Ht, D3, T3. cbn. now rewrite app_nil_r.
Qed.

(** An error reported by [exists], the call every request makes, ends the
    request with the 500. *)
Lemma exists_fault_fails (d : gmap string entry) :
  faults OpExists = true ->
  res (process options faults key (arrival d)) = failed_response options.
Proof.
  intros Hf. rewrite process_direct. unfold direct, observe.
  set (a1 := attempt options faults (EXISTS key) (arrival d)).
  assert (H1 : inflight options a1.2) by apply attempt_inflight, inflight_arrival.
  assert (S1 : settled a1.2 = true).
  { destruct (settled a1.2) eqn:Hs; [reflexivity|].
    destruct (attempt_unsettled _ _ (inflight_arrival d) Hs) as (_ & Hno & _).
    cbn in Hno. congruence. }
  set (ex := truthy (JNum (parseInt a1.1))).
  set (a2 := if ex then attempt options faults (GET key) a1.2 else (JUndefined, a1.2)).
  assert (H2 : inflight options a2.2 /\ settled a2.2 = true).
  { unfold a2. destruct ex; [|auto]. split; [now apply attempt_inflight|].
    destruct (settled (attempt options faults (GET key) a1.2).2) eqn:Hs; [reflexivity|].
    pose proof (attempt_settled _ _ H1 Hs). congruence. }
  destruct H2 as [H2 S2].
  set (a3 := if ex then attempt options faults (PTTL key) a2.2 else (JUndefined, a2.2)).
  assert (H3 : inflight options a3.2 /\ settled a3.2 = true).
  { unfold a3. destruct ex; [|auto]. split; [now apply attempt_inflight|].
    destruct (settled (attempt options faults (PTTL key) a2.2).2) eqn:Hs; [reflexivity|].
    pose proof (attempt_settled _ _ H2 Hs). congruence. }
  destruct H3 as [H3 S3].
  set (count := if ex then _ else _). set (ttl := if ex then _ else _).
  set (atLimit := jgt count (to_number (requestLimit options))).
  destruct (commit_facts ttl atLimit a3.2 H3) as (H5 & C5). cbn zeta in H5, C5.
  set (w5 := commit options faults key ttl atLimit a3.2) in *.
  assert (S5 : settled w5 = true).
  { destruct (settled w5) eqn:Hs; [reflexivity|].
    destruct (C5 eq_refl) as [Hs3 _]. congruence. }
  unfold once. rewrite S5. destruct H5 as [_ Hr]. now rewrite S5 in Hr.
Qed.

End DirectFacts.


(** ** A request that meets no fault *)

Lemma parse_decimal_string_of_Z (z : Z) : parse_decimal (string_of_Z z) = Num z.
Proof. exact (parseInt_string_of_Z z). Qed.

Lemma redis_incr_ok (k : string) (d : gmap string entry) :
  exists r, redis (INCR k) d = (inr r, (redis (INCR k) d).2).
Proof. cbn. destruct (d !! k); eauto. Qed.

Lemma redis_pexpire_ok (k : string) (ms : Z) (d : gmap string entry) :
  exists r, redis (PEXPIRE k (Num ms)) d = (inr r, (redis (PEXPIRE k (Num ms)) d).2).
Proof. cbn. destruct (d !! k); eauto. Qed.

Lemma attempt_calm (options : Options) (c : command) (w : world) (r : jsval)
    (d' : gmap string entry) :
  redis c (db w) = (inr r, d') ->
  attempt options calm c w = (r, sent c d' w).
Proof. intros H. unfold attempt, calm. now rewrite H. Qed.

Lemma commit_calm (options : Options) (key : string) (ms : Z) (w : world) :
  commit options calm key (Num ms) false w
  = sent (PEXPIRE key (Num ms))
         (redis (PEXPIRE key (Num ms)) (redis (INCR key) (db w)).2).2
         (sent (INCR key) (redis (INCR key) (db w)).2 w).
Proof.
  unfold commit.
  destruct (redis_incr_ok key (db w)) as [r Hr].
  rewrite (attempt_calm _ _ _ _ _ Hr). cbn [snd].
  destruct (redis_pexpire_ok key ms (redis (INCR key) (db w)).2) as [r' Hr'].
  now rewrite (attempt_calm options (PEXPIRE key (Num ms))
                (sent (INCR key) (redis (INCR key) (db w)).2 w) r' _ Hr').
Qed.

Lemma process_calm (options : Options) (key : string) (d : gmap string entry) :
  at_limit options key d = true \/ (exists ms, seen_ttl options key d = Num ms) ->
  process options calm key (arrival d) = verdict options key d.
Proof.
  intros Hok. rewrite process_direct.
  assert (Hobs : observe options calm key (arrival d)
                 = (seen_count key d, seen_ttl options key d,
                    {| db := d; trace := seen_reads key d; res := untouched;
                       passed := false; settled := false |})).
  { unfold observe, attempt, calm, seen_count, seen_ttl, seen_reads.
    cbn [op_of redis db arrival fst snd].
    destruct (d !! key) as [e|] eqn:Hk;
      cbn [truthy parseInt Z.eqb negb fst snd op_of redis db sent];
      rewrite ?Hk, ?parseInt_string_of_Z, ?parse_decimal_string_of_Z; reflexivity. }
  unfold direct. rewrite Hobs. unfold verdict, committed.
  fold (at_limit options key d).
  destruct (at_limit options key d) eqn:Ha; [reflexivity|].
  destruct Hok as [Hok|[ms Hms]]; [discriminate|].
  rewrite Hms, commit_calm. reflexivity.
Qed.

(** The world the final callback leaves, spelled out. *)
Lemma verdict_at_limit (options : Options) (key : string) (d : gmap string entry) :
  at_limit options key d = true ->
  verdict options key d
  = {| db := d; trace := seen_reads key d;
       res := {| status := Some 429;
                 body := Some (rejection_body options (seen_ttl options key d));
                 headers := decision_headers options (seen_count key d)
                                             (seen_ttl options key d) |};
       passed := false; settled := true |}.
Proof.
  intros Ha. unfold verdict, committed. rewrite Ha. reflexivity.
Qed.

Lemma verdict_under_limit (options : Options) (key : string) (d : gmap string entry) :
  at_limit options key d = false ->
  verdict options key d
  = {| db := (redis (PEXPIRE key (seen_ttl options key d)) (redis (INCR key) d).2).2;
       trace := PEXPIRE key (seen_ttl options key d) :: INCR key :: seen_reads key d;
       res := {| status := None; body := None;
                 headers := decision_headers options (seen_count key d)
                                             (seen_ttl options key d) |};
       passed := true; settled := true |}.
Proof.
  intros Ha. unfold verdict, committed. rewrite Ha. reflexivity.
Qed.

Lemma decision_headers_lookup (options : Options) (count ttl : jsnum) :
  decision_headers options count ttl !! "X-RateLimit-Limit"%string
    = Some (requestLimit options) /\
  decision_headers options count ttl !! "X-RateLimit-Remaining"%string
    = Some (JNum (requestsRemaining options count)) /\
  decision_headers options count ttl !! "X-RateLimit-Window"%string
    = Some (JNum (jmul (to_number (timeWindow options)) (Num 1000))) /\
  decision_headers options count ttl !! "X-RateLimit-Reset"%string
    = Some (JNum ttl).
Proof.
  unfold decision_headers. repeat split.
Qed.

Lemma decision_headers_nonempty (options : Options) (count ttl : jsnum) :
  decision_headers options count ttl <> ∅.
Proof. unfold decision_headers. apply insert_non_empty. Qed.

(** The three ways a request ends. *)
Lemma rateLimit_outcome (options : Options) (faults : cache_op -> bool)
    (req : request) (d : gmap string entry) (w' : world) :
  rateLimit options faults req (arrival d) = Some w' ->
  exists key, deriveKey options req = Some key /\
    ((res w' = failed_response options /\ passed w' = false) \/
     (w' = verdict options key d /\ at_limit options key d = true) \/
     (w' = verdict options key d /\ at_limit options key d = false)).
Proof.
  unfold rateLimit. destruct (deriveKey options req) as [key|]; [|discriminate].
  intros [= <-]. exists key. split; [reflexivity|].
  destruct (process_outcome options faults key d) as [(Hr & Hp & _)|Hv]; [now left|].
  right. destruct (at_limit options key d); auto.
Qed.

(** The final callback writes to the response only. *)
Lemma once_gate_store (options : Options) (r : outcome (jsnum * jsnum * bool))
    (w : world) :
  db (once (rateLimitGate options) r w) = db w /\
  trace (once (rateLimitGate options) r w) = trace w.
Proof.
  unfold once. destruct (settled w); [auto|].
  destruct r as [e|[[count ttl] []]]; cbn; auto.
Qed.

(** At the limit tasks 4 and 5 send nothing, whatever was reported before. *)
Lemma at_limit_frame (options : Options) (faults : cache_op -> bool)
    (key : string) (d : gmap string entry) :
  jgt (observe options faults key (arrival d)).1.1
      (to_number (requestLimit options)) = true ->
  db (process options faults key (arrival d)) = d /\
  Forall (fun c => is_write c = false)
         (trace (process options faults key (arrival d))).
Proof.
  rewrite process_direct. unfold direct.
  pose proof (observe_facts options faults key (arrival d) (inflight_arrival options d))
    as Ho.
  destruct (observe options faults key (arrival d)) as [[count ttl] w3].
  destruct Ho as (_ & D3 & (cmds & T3 & Hreads) & _).
  cbn [fst]. intros ->. unfold commit.
  destruct (once_gate_store options (Success (count, ttl, true)) w3) as (-> & ->).
  split; [exact D3|].
  rewrite T3. cbn [trace arrival]. rewrite app_nil_r.
  apply Forall_forall. intros c Hc. apply list_elem_of_In in Hc.
  rewrite forallb_forall in Hreads. apply Hreads in Hc.
  now destruct (is_write c).
Qed.

(** The frame of a rejected request. *)
Lemma denied_request_frame (options : Options) (faults : cache_op -> bool)
    (req : request) (d : gmap string entry) (w' : world) :
  rateLimit options faults req (arrival d) = Some w' ->
  status (res w') = Some 429 ->
  db w' = d /\ Forall (fun c => is_write c = false) (trace w').
Proof.
  intros Hrun Hst.
  destruct (rateLimit_outcome _ _ _ _ _ Hrun)
    as (key & _ & [(Hr & _)|[(-> & Ha)|(-> & Ha)]]).
  - rewrite Hr in Hst. discriminate.
  - rewrite verdict_at_limit by assumption. cbn [db trace]. split; [reflexivity|].
    unfold seen_reads. destruct (d !! key); repeat constructor.
  - rewrite verdict_under_limit in Hst by assumption. discriminate.
Qed.

(** The server's refusal does not depend on what it holds. *)
Lemma redis_refused (c : command) (d : gmap string entry) :
  match (redis c d).1 with
  | inl _ => refused c = true
  | inr _ => refused c = false
  end.
Proof.
  destruct c as [k|k|k|k|k [ms|]]; cbn; try reflexivity.
  - now destruct (d !! k).
  - now destruct (d !! k).
Qed.

Lemma attempt_accounted (options : Options) (faults : cache_op -> bool)
    (c : command) (w : world) :
  accounted options faults w ->
  accounted options faults (attempt options faults c w).2.
Proof.
  intros [Hw Hiff]. split; [now apply attempt_inflight|].
  rewrite attempt_trace by assumption. rewrite Exists_cons.
  unfold attempt, erred.
  destruct (faults (op_of c)) eqn:Hf.
  - destruct (once_failure_inflight options "store fault" c (db w) w Hw)
      as (_ & Hs & _). cbn [snd orb]. rewrite Hs. tauto.
  - pose proof (redis_refused c (db w)) as Hr.
    destruct (redis c (db w)) as [[e|reply] d']; cbn [fst snd] in *.
    + destruct (once_failure_inflight options e c (db w) w Hw) as (_ & Hs & _).
      rewrite Hs, Hr. cbn [orb]. tauto.
    + rewrite Hr. cbn [orb settled sent]. rewrite Hiff.
      split; [auto|]. intros [?|?]; [discriminate|assumption].
Qed.

(** The response is the 500 exactly when one of the commands sent reported
    an error. *)
Lemma process_accounted (options : Options) (faults : cache_op -> bool)
    (key : string) (d : gmap string entry) :
  status (res (process options faults key (arrival d))) = Some 500 <->
  Exists (fun c => erred faults c = true)
         (trace (process options faults key (arrival d))).
Proof.
  rewrite process_direct. unfold direct, observe.
  set (a1 := attempt options faults (EXISTS key) (arrival d)).
  assert (K1 : accounted options faults a1.2).
  { apply attempt_accounted. split; [apply inflight_arrival|].
    cbn. rewrite Exists_nil. split; [discriminate|tauto]. }
  set (ex := truthy (JNum (parseInt a1.1))).
  set (a2 := if ex then attempt options faults (GET key) a1.2 else (JUndefined, a1.2)).
  assert (K2 : accounted options faults a2.2).
  { unfold a2. destruct ex; [now apply attempt_accounted|exact K1]. }
  set (a3 := if ex then attempt options faults (PTTL key) a2.2 else (JUndefined, a2.2)).
  assert (K3 : accounted options faults a3.2).
  { unfold a3. destruct ex; [now apply attempt_accounted|exact K2]. }
  set (count := if ex then _ else _). set (ttl := if ex then _ else _).
  set (atLimit := jgt count (to_number (requestLimit options))).
  assert (K5 : accounted options faults (commit options faults key ttl atLimit a3.2)).
  { unfold commit. destruct atLimit; [exact K3|].
    now do 2 apply attempt_accounted. }
  set (w5 := commit options faults key ttl atLimit a3.2) in *.
  destruct K5 as ([Hp Hr] & Hiff).
  pose proof (once_gate_store options (Success (count, ttl, atLimit)) w5) as [_ Ht].
  rewrite Ht, <- Hiff. unfold once.
  destruct (settled w5) eqn:S5; cbv iota.
  - rewrite Hr. cbn. tauto.
  - split; [|discriminate].
    unfold rateLimitGate, setRateLimitHeaders.
    destruct atLimit; cbn [status res status_json done_ set_headers]; rewrite ?Hr; cbn;
      discriminate.
Qed.

(** C4, as the code has it.  A request that is let through or answered
    with 429 carries the four headers.  A request during which a store
    operation reported an error, whichever of the five it was, is answered
    with 500 and [internalErrorMessage] before [setRateLimitHeaders] is
    reached, and carries none: the response is the 500 exactly when one of
    the commands sent reported an error (the client at fault, or the server
    refusing the command), every response with status 500 is without
    headers, and the 500 it is whenever [exists], which every request
    calls, reports an error.  Every request ends in exactly one of the
    three ways. *)
Theorem C4_headers_on_decision (options : Options) (faults : cache_op -> bool)
    (req : request) (d : gmap string entry) (w' : world) :
  rateLimit options faults req (arrival d) = Some w' ->
  (passed w' = true \/ status (res w') = Some 429 ->
   is_Some (headers (res w') !! "X-RateLimit-Limit"%string) /\
   is_Some (headers (res w') !! "X-RateLimit-Remaining"%string) /\
   is_Some (headers (res w') !! "X-RateLimit-Window"%string) /\
   is_Some (headers (res w') !! "X-RateLimit-Reset"%string)) /\
  (status (res w') = Some 500 ->
   headers (res w') = ∅ /\ body (res w') = Some (internalErrorMessage options) /\
   passed w' = false) /\
  (faults OpExists = true -> status (res w') = Some 500) /\
  (status (res w') = Some 500 <->
   Exists (fun c => erred faults c = true) (trace w')) /\
  ((passed w' = true /\ status (res w') = None) \/
   (passed w' = false /\ status (res w') = Some 429) \/
   (passed w' = false /\ status (res w') = Some 500)).
Proof.
  intros Hrun.
  assert (Hex : faults OpExists = true -> status (res w') = Some 500).
  { intros Hf. unfold rateLimit in Hrun.
    destruct (deriveKey options req) as [key|]; [|discriminate].
    injection Hrun as <-. now rewrite exists_fault_fails. }
  assert (Herr : status (res w') = Some 500 <->
                 Exists (fun c => erred faults c = true) (trace w')).
  { unfold rateLimit in Hrun.
    destruct (deriveKey options req) as [key|]; [|discriminate].
    injection Hrun as <-. apply process_accounted. }
  destruct (rateLimit_outcome _ _ _ _ _ Hrun)
    as (key & _ & [(Hr & Hp)|[(-> & Ha)|(-> & Ha)]]).
  - rewrite Hr, Hp in *. cbn in *. split; [intros [?|?]; discriminate|].
    split; [auto|]. split; [auto|]. split; [exact Herr|]. right. right. auto.
  - rewrite verdict_at_limit in * by assumption.
    cbn [res passed status headers body] in *.
    split; [|split; [discriminate|split; [exact Hex|split; [exact Herr|auto]]]].
    intros _.
    destruct (decision_headers_lookup options (seen_count key d) (seen_ttl options key d))
      as (-> & -> & -> & ->). repeat split; eauto.
  - rewrite verdict_under_limit in * by assumption.
    cbn [res passed status headers body] in *.
    split; [|split; [discriminate|split; [exact Hex|split; [exact Herr|auto]]]].
    intros _.
    destruct (decision_headers_lookup options (seen_count key d) (seen_ttl options key d))
      as (-> & -> & -> & ->). repeat split; eauto.
Qed.

(** C4 as stated fails: when [exists] reports an error the response is the
    500 and none of the four headers is on it. *)
Lemma C4_counterexample :
  exists w',
    rateLimit defaultOptions exists_fails req_items (arrival ∅) = Some w' /\
    status (res w') = Some 500 /\
    headers (res w') !! "X-RateLimit-Limit"%string = None /\
    headers (res w') !! "X-RateLimit-Remaining"%string = None /\
    headers (res w') !! "X-RateLimit-Window"%string = None /\
    headers (res w') !! "X-RateLimit-Reset"%string = None.
Proof.
  eexists. split; [reflexivity|]. vm_compute. repeat split.
Qed.

(** [remaining < 0 ? 0 : remaining] is [max(0, requestLimit - count)]. *)
Lemma requestsRemaining_max (options : Options) (N c : Z) :
  to_number (requestLimit options) = Num N ->
  requestsRemaining options (Num c) = Num (Z.max 0 (N - c)).
Proof.
  intros HN. unfold requestsRemaining. rewrite HN. cbn [jsub jlt].
  destruct (Z.ltb_spec (N - c) 0); f_equal; lia.
Qed.

(** C5.  Whenever headers are set on a response they are: Limit, the
    configured [requestLimit]; Remaining, [requestsRemaining] of the count
    (the stored count plus one, or one on a missing key), which is
    [max(0, requestLimit - count)]; Window, [timeWindow * 1000], whatever the
    count; Reset, the time to live of the decision, which on a missing key
    (the first request of a window) is [timeWindow * 1000] as well. *)
Theorem C5_header_values (options : Options) (faults : cache_op -> bool)
    (req : request) (key : string) (d : gmap string entry) (w' : world) :
  deriveKey options req = Some key ->
  rateLimit options faults req (arrival d) = Some w' ->
  headers (res w') <> ∅ ->
  let count := match d !! key with Some e => stored e + 1 | None => 1 end in
  let window := jmul (to_number (timeWindow options)) (Num 1000) in
  let ttl :=
    match d !! key with
    | Some e => Num (match expires_in e with Some t => t | None => -1 end)
    | None => window
    end in
  headers (res w') !! "X-RateLimit-Limit"%string = Some (requestLimit options) /\
  headers (res w') !! "X-RateLimit-Remaining"%string
    = Some (JNum (requestsRemaining options (Num count))) /\
  (forall N, to_number (requestLimit options) = Num N ->
     requestsRemaining options (Num count) = Num (Z.max 0 (N - count))) /\
  headers (res w') !! "X-RateLimit-Window"%string = Some (JNum window) /\
  headers (res w') !! "X-RateLimit-Reset"%string = Some (JNum ttl) /\
  (d !! key = None ->
   headers (res w') !! "X-RateLimit-Reset"%string = Some (JNum window)).
Proof.
  intros Hkey Hrun Hset count window ttl.
  destruct (rateLimit_outcome _ _ _ _ _ Hrun) as (key' & Hkey' & Hout).
  assert (key' = key) as -> by congruence.
  assert (Hc : seen_count key d = Num count).
  { unfold seen_count, count. now destruct (d !! key). }
  assert (Ht : seen_ttl options key d = ttl).
  { unfold seen_ttl, ttl. now destruct (d !! key). }
  assert (Hh : headers (res w') = decision_headers options (Num count) ttl).
  { destruct Hout as [(Hr & _)|[(-> & Ha)|(-> & Ha)]].
    - rewrite Hr in Hset. now contradiction Hset.
    - rewrite verdict_at_limit by assumption. cbn. now rewrite Hc, Ht.
    - rewrite verdict_under_limit by assumption. cbn. now rewrite Hc, Ht. }
  rewrite Hh.
  destruct (decision_headers_lookup options (Num count) ttl) as (-> & -> & -> & ->).
  repeat split; auto.
  - intros N HN. now apply requestsRemaining_max.
  - intros Hnone. unfold ttl. now rewrite Hnone.
Qed.

(** ** Requests in a row *)

Lemma elapse_lookup (delay : Z) (d : gmap string entry) (k : string) :
  elapse delay d !! k = d !! k ≫= age delay.
Proof. unfold elapse. apply lookup_omap. Qed.

Lemma elapse_present (delay c t : Z) (d : gmap string entry) (k : string) :
  d !! k = Some {| stored := c; expires_in := Some t |} ->
  delay < t ->
  elapse delay d !! k = Some {| stored := c; expires_in := Some (t - delay) |}.
Proof.
  intros Hk Hlt. rewrite elapse_lookup, Hk. cbn. unfold age. cbn.
  destruct (Z.leb_spec t delay); [lia|reflexivity].
Qed.

Lemma elapse_absent (delay : Z) (d : gmap string entry) (k : string) :
  d !! k = None -> elapse delay d !! k = None.
Proof. intros Hk. now rewrite elapse_lookup, Hk. Qed.

Lemma total_delay_nonneg (options : Options) (key : string)
    (reqs : list (Z * request)) :
  same_key options key reqs -> 0 <= total_delay reqs.
Proof.
  induction 1 as [|[delay req] rest [Hd _] _ IH];
    unfold total_delay in *; cbn in *; lia.
Qed.

Section Window.

Variable options : Options.
Variable key : string.
Variables N T : Z.
Hypothesis limit_is : requestLimit options = JNum (Num N).
Hypothesis window_is : timeWindow options = JNum (Num T).

Lemma at_limit_is (d : gmap string entry) :
  at_limit options key d
  = (N <? match d !! key with Some e => stored e + 1 | None => 1 end).
Proof.
  unfold at_limit, seen_count. rewrite limit_is.
  now destruct (d !! key).
Qed.

Lemma seen_ttl_is (d : gmap string entry) :
  seen_ttl options key d
  = Num (match d !! key with
         | Some e => match expires_in e with Some t => t | None => -1 end
         | None => T * 1000
         end).
Proof.
  unfold seen_ttl. rewrite window_is. now destruct (d !! key).
Qed.

Lemma serve_cons (delay : Z) (req : request) (rest : list (Z * request))
    (d : gmap string entry) :
  deriveKey options req = Some key ->
  serve options ((delay, req) :: rest) d
  = Some (verdict options key (elapse delay d))
    :: serve options rest (db (verdict options key (elapse delay d))).
Proof.
  intros Hk. cbn [serve]. unfold rateLimit. rewrite Hk.
  rewrite process_calm; [reflexivity|].
  right. rewrite seen_ttl_is. eauto.
Qed.

Lemma remaining_of_verdict (d : gmap string entry) :
  remaining_of (Some (verdict options key d))
  = Some (Z.max 0 (N - match d !! key with Some e => stored e + 1 | None => 1 end)).
Proof.
  assert (Hh : headers (res (verdict options key d))
               = decision_headers options (seen_count key d) (seen_ttl options key d)).
  { destruct (at_limit options key d) eqn:Ha;
      [rewrite verdict_at_limit|rewrite verdict_under_limit]; auto. }
  unfold remaining_of. rewrite Hh.
  destruct (decision_headers_lookup options (seen_count key d) (seen_ttl options key d))
    as (_ & -> & _).
  unfold seen_count.
  destruct (d !! key) as [e|];
    rewrite (requestsRemaining_max options N) by (now rewrite limit_is);
    reflexivity.
Qed.

(** One request on a counter that is running: let through and counted
    while the count stays within the limit, else rejected and not
    counted; the time left is what it was. *)
Lemma verdict_present (d : gmap string entry) (c t : Z) :
  d !! key = Some {| stored := c; expires_in := Some t |} -> 0 < t -> c <= N ->
  answered key N (c + 1) (Some (verdict options key d)) /\
  db (verdict options key d) !! key
  = Some {| stored := if N <? c + 1 then c else c + 1; expires_in := Some t |}.
Proof.
  intros Hk Ht Hc.
  pose proof (at_limit_is d) as Ha. pose proof (seen_ttl_is d) as Hs.
  pose proof (remaining_of_verdict d) as Hr.
  rewrite Hk in Ha, Hs, Hr. cbn in Ha, Hs, Hr.
  assert (Hdb : db (verdict options key d) !! key
                = Some {| stored := if N <? c + 1 then c else c + 1;
                          expires_in := Some t |}).
  { destruct (Z.ltb_spec N (c + 1)) as [Hlt|Hle].
    - now rewrite verdict_at_limit by assumption.
    - rewrite verdict_under_limit by assumption. cbn [db].
      rewrite Hs. cbn [redis]. rewrite Hk. cbn [snd stored expires_in].
      rewrite lookup_insert_eq. cbn [snd stored].
      destruct (Z.leb_spec t 0); [lia|]. now rewrite lookup_insert_eq. }
  split; [|exact Hdb].
  split; [|split; [|split]].
  - intros Hle. destruct (Z.ltb_spec N (c + 1)); [lia|].
    eexists. split; [reflexivity|].
    now rewrite verdict_under_limit by assumption.
  - intros Hlt. destruct (Z.ltb_spec N (c + 1)); [|lia].
    eexists. split; [reflexivity|].
    now rewrite verdict_at_limit by assumption.
  - exact Hr.
  - intros w' e [= <-]. rewrite Hdb. intros [= <-]. cbn.
    destruct (Z.ltb_spec N (c + 1)); lia.
Qed.

(** One request on a missing key: the first of a window. *)
Lemma verdict_absent (d : gmap string entry) :
  d !! key = None -> 0 < T ->
  answered key N 1 (Some (verdict options key d)) /\
  db (verdict options key d) !! key
  = if N <? 1 then None
    else Some {| stored := 1; expires_in := Some (T * 1000) |}.
Proof.
  intros Hk HT.
  pose proof (at_limit_is d) as Ha. pose proof (seen_ttl_is d) as Hs.
  pose proof (remaining_of_verdict d) as Hr.
  rewrite Hk in Ha, Hs, Hr.
  assert (Hdb : db (verdict options key d) !! key
                = if N <? 1 then None
                  else Some {| stored := 1; expires_in := Some (T * 1000) |}).
  { destruct (Z.ltb_spec N 1) as [Hlt|Hle].
    - now rewrite verdict_at_limit by assumption.
    - rewrite verdict_under_limit by assumption. cbn [db].
      rewrite Hs. cbn [redis]. rewrite Hk. cbn [snd].
      rewrite lookup_insert_eq. cbn [snd stored].
      destruct (Z.leb_spec (T * 1000) 0); [lia|]. now rewrite lookup_insert_eq. }
  split; [|exact Hdb].
  split; [|split; [|split]].
  - intros Hle. destruct (Z.ltb_spec N 1); [lia|].
    eexists. split; [reflexivity|].
    now rewrite verdict_under_limit by assumption.
  - intros Hlt. destruct (Z.ltb_spec N 1); [|lia].
    eexists. split; [reflexivity|].
    now rewrite verdict_at_limit by assumption.
  - exact Hr.
  - intros w' e [= <-]. rewrite Hdb.
    destruct (Z.ltb_spec N 1); [discriminate|]. intros [= <-]. cbn. lia.
Qed.

Lemma answered_beyond (n n' : Z) (w : option world) :
  N < n -> N < n' -> answered key N n w -> answered key N n' w.
Proof.
  intros Hn Hn' (Ha & Hr & Hrem & Hst).
  split; [|split; [|split]]; auto.
  - lia.
  - rewrite Hrem. f_equal. lia.
Qed.

(** Requests on a running counter, all before it expires. *)
Lemma serve_window (rest : list (Z * request)) :
  forall (d : gmap string entry) (c t : Z),
    d !! key = Some {| stored := c; expires_in := Some t |} ->
    1 <= c <= N ->
    same_key options key rest ->
    total_delay rest < t ->
    forall (j : nat) (w : option world),
      serve options rest d !! j = Some w ->
      answered key N (c + Z.of_nat j + 1) w.
Proof.
  induction rest as [|[delay req] rest IH]; intros d c t Hk Hc Hsame Htot j w Hj.
  - discriminate.
  - inversion Hsame as [|? ? [Hd Hkey] Hsame']; subst. cbn in Hd, Hkey.
    pose proof (total_delay_nonneg _ _ _ Hsame') as Hnn.
    unfold total_delay in Htot; cbn in Htot; fold (total_delay rest) in Htot.
    rewrite serve_cons in Hj by assumption.
    assert (Hk1 : elapse delay d !! key
                  = Some {| stored := c; expires_in := Some (t - delay) |})
      by (apply elapse_present; [assumption|lia]).
    destruct (verdict_present _ c (t - delay) Hk1 ltac:(lia) ltac:(lia))
      as (Hans & Hdb).
    destruct j as [|j'].
    + cbn in Hj. injection Hj as <-.
      now replace (c + Z.of_nat 0 + 1) with (c + 1) by lia.
    + cbn in Hj.
      destruct (Z.ltb_spec N (c + 1)) as [Hlt|Hle].
      * apply (answered_beyond (c + Z.of_nat j' + 1)); [lia|lia|].
        apply (IH _ c (t - delay) Hdb); auto; lia.
      * replace (c + Z.of_nat (S j') + 1) with (c + 1 + Z.of_nat j' + 1) by lia.
        apply (IH _ (c + 1) (t - delay) Hdb); auto; lia.
Qed.

(** With a limit below one every request finds the key missing. *)
Lemma serve_closed (reqs : list (Z * request)) :
  N < 1 -> 0 < T ->
  forall (d : gmap string entry),
    d !! key = None ->
    same_key options key reqs ->
    forall (j : nat) (w : option world),
      serve options reqs d !! j = Some w ->
      answered key N (Z.of_nat j + 1) w.
Proof.
  intros HN HT.
  induction reqs as [|[delay req] rest IH]; intros d Hk Hsame j w Hj.
  - discriminate.
  - inversion Hsame as [|? ? [Hd Hkey] Hsame']; subst. cbn in Hd, Hkey.
    rewrite serve_cons in Hj by assumption.
    pose proof (elapse_absent delay d key Hk) as Hk1.
    destruct (verdict_absent _ Hk1 HT) as (Hans & Hdb).
    destruct (Z.ltb_spec N 1); [|lia].
    destruct j as [|j'].
    + cbn in Hj. injection Hj as <-. exact Hans.
    + cbn in Hj.
      apply (answered_beyond (Z.of_nat j' + 1)); [lia|lia|].
      now apply (IH _ Hdb).
Qed.

(** Requests for one key from its first request on, all within
    [timeWindow] seconds of it. *)
Lemma serve_fresh (reqs : list (Z * request)) (d : gmap string entry) :
  0 < T ->
  d !! key = None ->
  same_key options key reqs ->
  span reqs < T * 1000 ->
  forall (j : nat) (w : option world),
    serve options reqs d !! j = Some w ->
    answered key N (Z.of_nat j + 1) w.
Proof.
  intros HT Hk Hsame Hspan j w Hj.
  destruct (Z.ltb_spec N 1) as [Hlt|Hle].
  - now apply (serve_closed reqs Hlt HT d).
  - destruct reqs as [|[delay req] rest]; [discriminate|].
    inversion Hsame as [|? ? [Hd Hkey] Hsame']; subst. cbn in Hd, Hkey, Hspan.
    rewrite serve_cons in Hj by assumption.
    pose proof (elapse_absent delay d key Hk) as Hk1.
    destruct (verdict_absent _ Hk1 HT) as (Hans & Hdb).
    destruct (Z.ltb_spec N 1); [lia|].
    destruct j as [|j'].
    + cbn in Hj. injection Hj as <-. exact Hans.
    + cbn in Hj.
      replace (Z.of_nat (S j') + 1) with (1 + Z.of_nat j' + 1) by lia.
      apply (serve_window rest _ 1 (T * 1000) Hdb); auto; lia.
Qed.

End Window.

Lemma length_serve (options : Options) (reqs : list (Z * request)) :
  forall d, length (serve options reqs d) = length reqs.
Proof.
  induction reqs as [|[delay req] rest IH]; intros d; cbn; [reflexivity|].
  now rewrite IH.
Qed.

Lemma serve_lookup (options : Options) (reqs : list (Z * request))
    (d : gmap string entry) (j : nat) :
  (j < length reqs)%nat -> exists w, serve options reqs d !! j = Some w.
Proof.
  intros Hj. apply lookup_lt_is_Some. now rewrite length_serve.
Qed.

(** A single request that meets no fault is rejected exactly when the
    stored count plus one (one on a missing key) exceeds the limit. *)
Lemma strict_test (options : Options) (key : string) (N T : Z) (req : request)
    (d : gmap string entry) :
  requestLimit options = JNum (Num N) ->
  timeWindow options = JNum (Num T) ->
  deriveKey options req = Some key ->
  let count := match d !! key with Some e => stored e + 1 | None => 1 end in
  (rejected (rateLimit options calm req (arrival d)) <-> N < count) /\
  (allowed (rateLimit options calm req (arrival d)) <-> count <= N).
Proof.
  intros HN HT Hkey count. unfold rateLimit. rewrite Hkey.
  rewrite process_calm by (right; rewrite (seen_ttl_is options key T HT); eauto).
  pose proof (at_limit_is options key N HN d) as Ha. fold count in Ha.
  destruct (Z.ltb_spec N count) as [Hlt|Hle].
  - rewrite verdict_at_limit by assumption. split; split.
    + intros _. exact Hlt.
    + intros _. eexists. split; [reflexivity|]. split; reflexivity.
    + intros (w' & [= <-] & Hp & _). discriminate.
    + lia.
  - rewrite verdict_under_limit by assumption. split; split.
    + intros (w' & [= <-] & Hp & _). discriminate.
    + lia.
    + intros _. exact Hle.
    + intros _. eexists. split; [reflexivity|]. split; reflexivity.
Qed.

(** C1.  Under [requestLimit = n], of [n + 1] requests for one key, the
    first on a missing key and all within one window, the first [n] are
    let through ([done()] is called) and the last is answered with 429.
    The test is strict: a request is rejected exactly when the stored
    count plus one for itself exceeds [requestLimit]. *)
Theorem C1_limit_then_reject (options : Options) (key : string) (n : nat) (T : Z)
    (reqs : list (Z * request)) (d : gmap string entry) :
  requestLimit options = JNum (Num (Z.of_nat n)) ->
  timeWindow options = JNum (Num T) ->
  0 < T ->
  d !! key = None ->
  same_key options key reqs ->
  length reqs = S n ->
  span reqs < T * 1000 ->
  (forall j, (j < n)%nat ->
     exists w, serve options reqs d !! j = Some w /\ allowed w) /\
  (exists w, serve options reqs d !! n = Some w /\ rejected w) /\
  (forall req d0, deriveKey options req = Some key ->
     let count := match d0 !! key with Some e => stored e + 1 | None => 1 end in
     rejected (rateLimit options calm req (arrival d0)) <-> Z.of_nat n < count).
Proof.
  intros HN HT HT0 Hk Hsame Hlen Hspan.
  split; [|split].
  - intros j Hj.
    destruct (serve_lookup options reqs d j ltac:(lia)) as [w Hw].
    exists w. split; [assumption|].
    apply (serve_fresh options key _ T HN HT reqs d HT0 Hk Hsame Hspan j w Hw). lia.
  - destruct (serve_lookup options reqs d n ltac:(lia)) as [w Hw].
    exists w. split; [assumption|].
    apply (serve_fresh options key _ T HN HT reqs d HT0 Hk Hsame Hspan n w Hw). lia.
  - intros req d0 Hkey. exact (proj1 (strict_test options key _ T req d0 HN HT Hkey)).
Qed.

(** C7.  Over requests for one key within one window the value of
    [X-RateLimit-Remaining] never goes up from one request to a later one
    and is never negative; it is 0 from the request on whose count reaches
    [requestLimit]. *)
Theorem C7_remaining_monotone (options : Options) (key : string) (N T : Z)
    (reqs : list (Z * request)) (d : gmap string entry) :
  requestLimit options = JNum (Num N) ->
  timeWindow options = JNum (Num T) ->
  0 < T ->
  d !! key = None ->
  same_key options key reqs ->
  span reqs < T * 1000 ->
  (forall j w, serve options reqs d !! j = Some w ->
     exists r, remaining_of w = Some r /\ 0 <= r /\ (N <= Z.of_nat j + 1 -> r = 0)) /\
  (forall i j wi wj ri rj, (i <= j)%nat ->
     serve options reqs d !! i = Some wi -> serve options reqs d !! j = Some wj ->
     remaining_of wi = Some ri -> remaining_of wj = Some rj ->
     rj <= ri).
Proof.
  intros HN HT HT0 Hk Hsame Hspan.
  pose proof (serve_fresh options key N T HN HT reqs d HT0 Hk Hsame Hspan) as Hall.
  split.
  - intros j w Hw. destruct (Hall j w Hw) as (_ & _ & Hr & _).
    eexists. split; [exact Hr|]. split; lia.
  - intros i j wi wj ri rj Hij Hi Hj Hri Hrj.
    destruct (Hall i wi Hi) as (_ & _ & Hr1 & _).
    destruct (Hall j wj Hj) as (_ & _ & Hr2 & _).
    rewrite Hr1 in Hri. rewrite Hr2 in Hrj.
    injection Hri as <-. injection Hrj as <-. lia.
Qed.

(** C6.  A request answered with 429 sent only reads to the store and left
    the database, so also the entry of its key with its count and its time
    to live, exactly as it found it: neither [INCR] nor [PEXPIRE] was
    executed.  This holds whatever the client reports for its operations,
    and so it does for every request for which [incrRequestCount] computes
    [atLimit] as true, also one already answered with the 500 of a fault.
    And over requests for one key within one window, none of which meets a
    fault, the stored count never exceeds [requestLimit]. *)
Theorem C6_denied_request_leaves_store :
  (forall (options : Options) (faults : cache_op -> bool) (req : request)
          (d : gmap string entry) (w' : world),
     rateLimit options faults req (arrival d) = Some w' ->
     status (res w') = Some 429 ->
     db w' = d /\ Forall (fun c => is_write c = false) (trace w')) /\
  (forall (options : Options) (faults : cache_op -> bool) (key : string)
          (d : gmap string entry),
     let count := (observe options faults key (arrival d)).1.1 in
     let atLimit := jgt count (to_number (requestLimit options)) in
     atLimit = true ->
     db (process options faults key (arrival d)) = d /\
     Forall (fun c => is_write c = false)
            (trace (process options faults key (arrival d)))) /\
  (forall (options : Options) (key : string) (N T : Z)
          (reqs : list (Z * request)) (d : gmap string entry),
     requestLimit options = JNum (Num N) ->
     timeWindow options = JNum (Num T) ->
     0 < T ->
     d !! key = None ->
     same_key options key reqs ->
     span reqs < T * 1000 ->
     forall j w' e,
       serve options reqs d !! j = Some (Some w') ->
       db w' !! key = Some e -> stored e <= N).
Proof.
  split; [|split].
  - exact denied_request_frame.
  - intros options faults key d count atLimit. exact (at_limit_frame options faults key d).
  - intros options key N T reqs d HN HT HT0 Hk Hsame Hspan j w' e Hj He.
    destruct (serve_fresh options key N T HN HT reqs d HT0 Hk Hsame Hspan j _ Hj)
      as (_ & _ & _ & Hst).
    exact (Hst w' e eq_refl He).
Qed.

(** ** Construction *)

(** C10.  Without an options argument ([undefined] or [null])
    [validateOptions] returns the empty object, nothing is thrown, and the
    middleware runs on the defaults: 60 requests per 60 seconds,
    [/[a-z0-9]{24}$/] replaced by [':id'], and the default [createKey],
    [rateLimitMessage] and [internalErrorMessage]. *)
Theorem C10_absent_options_default :
  validateOptions (ArgOther JUndefined) = inr emptyOptions /\
  validateOptions (ArgOther JNull) = inr emptyOptions /\
  ExpressRedisRateLimit (ArgOther JUndefined) = inr defaultOptions /\
  ExpressRedisRateLimit (ArgOther JNull) = inr defaultOptions /\
  requestLimit defaultOptions = JNum (Num 60) /\
  timeWindow defaultOptions = JNum (Num 60) /\
  idMatcher defaultOptions = JRegExp mongo_id_matcher /\
  idValue defaultOptions = JStr ":id" /\
  (exists g, createKey defaultOptions = JFun default_createKey g) /\
  (exists f, rateLimitMessage defaultOptions = JFun f default_rateLimitMessage) /\
  internalErrorMessage defaultOptions = default_internalErrorMessage.
Proof.
  repeat split; try reflexivity; eexists; reflexivity.
Qed.

Example default_key_example :
  deriveKey defaultOptions req_items = Some "RL/::1/GET/items"%string /\
  deriveKey defaultOptions
    {| ip := "::1"; method := "GET"; url := "/items/507f1f77bcf86cd799439011" |}
  = Some "RL/::1/GET/items/:id"%string.
Proof. split; reflexivity. Qed.

Example default_message_example :
  default_rateLimitMessage (Num 59990)
  = JObj [("error"%string,
           JObj [("message"%string, JStr "Rate limit reached. Try again in 60 seconds.");
                 ("timeout"%string, JNum (Num 59990));
                 ("type"%string, JStr "RATE_LIMIT")])].
Proof. reflexivity. Qed.



(** The guards of [validateOptions] skip a value that is falsy, so a limit
    of zero is let in, and then no request at all is let through. *)
Example zero_limit_accepted :
  (exists o, ExpressRedisRateLimit (ArgOptions (limit_only 0)) = inr o /\
             requestLimit o = JNum (Num 0)) /\
  (exists msg, ExpressRedisRateLimit (ArgOptions (limit_only (-1))) = inl msg).
Proof.
  split; eexists; [split|]; reflexivity.
Qed.

(** C2 at the input of the test of request spreading.  The constructor
    leaves [requestLimit] and [timeWindow] as they are and the middleware
    never reads [enforceRequestSpreading]: with the flag set, two requests
    10 ms apart are both let through, as they are with the flag off. *)
Theorem C2_spreading_is_ignored :
  (exists o,
     ExpressRedisRateLimit (ArgOptions (spreading_options true)) = inr o /\
     requestLimit o = JNum (Num 10) /\ timeWindow o = JNum (Num 60) /\
     exists w1 w2,
       serve o [(0, req_items); (10, req_items)] ∅ = [w1; w2] /\
       allowed w1 /\ allowed w2) /\
  (exists o,
     ExpressRedisRateLimit (ArgOptions (spreading_options false)) = inr o /\
     exists w1 w2,
       serve o [(0, req_items); (10, req_items)] ∅ = [w1; w2] /\
       allowed w1 /\ allowed w2) /\
  (forall (o : Options) (v : jsval) faults req w,
     rateLimit {| requestLimit := requestLimit o; timeWindow := timeWindow o;
                  idMatcher := idMatcher o; idValue := idValue o;
                  createKey := createKey o; rateLimitMessage := rateLimitMessage o;
                  internalErrorMessage := internalErrorMessage o;
                  enforceRequestSpreading := v |} faults req w
     = rateLimit o faults req w).
Proof.
  split; [|split].
  - eexists. split; [reflexivity|]. split; [reflexivity|]. split; [reflexivity|].
    do 2 eexists. split; [reflexivity|].
    split; eexists; (split; [reflexivity|split; vm_compute; reflexivity]).
  - eexists. split; [reflexivity|].
    do 2 eexists. split; [reflexivity|].
    split; eexists; (split; [reflexivity|split; vm_compute; reflexivity]).
  - intros [] v faults req w. reflexivity.
Qed.

(** C3 at failing inputs.  [exists] reports an error on a missing key under
    the default options: the response is the 500 with
    [internalErrorMessage] and the request is not let through, but the
    tasks go on after the error, [INCR] and [PEXPIRE] are executed, and
    the request is counted.  Likewise when [get] reports an error on a key
    that holds a count of 1: [PTTL], [INCR] and [PEXPIRE] follow and the
    count becomes 2. *)
Theorem C3_fault_does_not_abort :
  (exists w',
     rateLimit defaultOptions exists_fails req_items (arrival ∅) = Some w' /\
     status (res w') = Some 500 /\
     body (res w') = Some default_internalErrorMessage /\
     passed w' = false /\
     rev (trace w')
     = [EXISTS items_key; INCR items_key; PEXPIRE items_key (Num 60000)] /\
     db w' !! items_key = Some {| stored := 1; expires_in := Some 60000 |}) /\
  (exists w',
     rateLimit defaultOptions get_fails req_items (arrival one_request) = Some w' /\
     status (res w') = Some 500 /\
     body (res w') = Some default_internalErrorMessage /\
     passed w' = false /\
     rev (trace w')
     = [EXISTS items_key; GET items_key; PTTL items_key; INCR items_key;
        PEXPIRE items_key (Num 59990)] /\
     db w' !! items_key = Some {| stored := 2; expires_in := Some 59990 |}).
Proof.
  split; (eexists; split; [reflexivity|]; vm_compute; repeat split).
Qed.

(** ** Key derivation *)

Lemma append_cons (c : ascii) (a b : string) :
  String c a +:+ b = String c (a +:+ b).
Proof. reflexivity. Qed.

Lemma append_assoc (a b c : string) : (a +:+ b) +:+ c = a +:+ (b +:+ c).
Proof.
  induction a as [|x a IH]; [reflexivity|].
  rewrite !append_cons. f_equal. exact IH.
Qed.

Lemma append_nil_r (a : string) : a +:+ "" = a.
Proof.
  induction a as [|x a IH]; [reflexivity|].
  rewrite append_cons. f_equal. exact IH.
Qed.

Lemma substring_prefix (p x : string) :
  String.substring 0 (String.length p) (p +:+ x) = p.
Proof.
  induction p as [|c p IH].
  - now destruct x.
  - rewrite append_cons. cbn. f_equal. exact IH.
Qed.

Lemma substring_whole (s : string) : String.substring 0 (String.length s) s = s.
Proof.
  induction s as [|c s IH]; cbn; [reflexivity|]. f_equal. exact IH.
Qed.

Lemma substring_skip (p x : string) (n k : nat) :
  String.substring (String.length p + n) k (p +:+ x) = String.substring n k x.
Proof.
  induction p as [|c p IH]; [reflexivity|].
  rewrite append_cons. cbn. exact IH.
Qed.

Lemma length_append (a b : string) :
  String.length (a +:+ b) = (String.length a + String.length b)%nat.
Proof.
  induction a as [|c a IH]; [reflexivity|].
  rewrite append_cons. cbn. f_equal. exact IH.
Qed.

Lemma expand_replacement_plain (v before matched after : string) :
  no_dollar v = true -> expand_replacement v before matched after = v.
Proof.
  induction v as [|c v IH]; cbn; [reflexivity|].
  intros H. apply andb_prop in H as [Hc Hv].
  destruct (Ascii.eqb_spec c "$"%char) as [->|Hne]; [discriminate|].
  rewrite (IH Hv).
  destruct c as [[] [] [] [] [] [] [] []]; try reflexivity; now contradiction Hne.
Qed.

(** Replacing the match [m] found between [p] and [s]. *)
Lemma regexp_replace_at (re : RegExp) (v p m s : string) :
  re_exec re (p +:+ m +:+ s) = Some (String.length p, String.length m) ->
  no_dollar v = true ->
  regexp_replace (p +:+ m +:+ s) re v = p +:+ v +:+ s.
Proof.
  intros Hex Hv. unfold regexp_replace. rewrite Hex.
  rewrite expand_replacement_plain by assumption.
  rewrite substring_prefix. f_equal. f_equal.
  rewrite substring_skip.
  rewrite !length_append.
  replace (String.length p + (String.length m + String.length s)
           - (String.length p + String.length m))%nat
    with (String.length s) by lia.
  rewrite <- (Nat.add_0_r (String.length m)) at 1.
  rewrite substring_skip. apply substring_whole.
Qed.











(** ** The theorems at concrete inputs *)

(** C1 with [{ requestLimit: 2 }]: of three requests 10 ms apart the first
    two are let through and the third is rejected. *)
Lemma C1_witness :
  requestLimit (limited 2) = JNum (Num (Z.of_nat 2)) /\
  timeWindow (limited 2) = JNum (Num 60) /\
  0 < 60 /\
  (∅ : gmap string entry) !! items_key = None /\
  same_key (limited 2) items_key three_requests /\
  length three_requests = 3%nat /\
  span three_requests < 60 * 1000 /\
  (forall j, (j < 2)%nat ->
     exists w, serve (limited 2) three_requests ∅ !! j = Some w /\ allowed w) /\
  (exists w, serve (limited 2) three_requests ∅ !! 2%nat = Some w /\ rejected w) /\
  (forall req d0, deriveKey (limited 2) req = Some items_key ->
     let count := match d0 !! items_key with Some e => stored e + 1 | None => 1 end in
     rejected (rateLimit (limited 2) calm req (arrival d0)) <-> Z.of_nat 2 < count).
Proof.
  assert (Hsame : same_key (limited 2) items_key three_requests).
  { repeat constructor; cbn; lia. }
  repeat (split; [first [reflexivity | lia | exact Hsame]|]).
  apply (C1_limit_then_reject (limited 2) items_key 2 60 three_requests ∅);
    first [reflexivity | lia | exact Hsame].
Defined.

(** C4 at the second request under [{ requestLimit: 1 }]. *)
Lemma C4_witness :
  rateLimit (limited 1) calm req_items (arrival one_request) = Some second_of_one /\
  (passed second_of_one = true \/ status (res second_of_one) = Some 429 ->
   is_Some (headers (res second_of_one) !! "X-RateLimit-Limit"%string) /\
   is_Some (headers (res second_of_one) !! "X-RateLimit-Remaining"%string) /\
   is_Some (headers (res second_of_one) !! "X-RateLimit-Window"%string) /\
   is_Some (headers (res second_of_one) !! "X-RateLimit-Reset"%string)) /\
  (status (res second_of_one) = Some 500 ->
   headers (res second_of_one) = ∅ /\
   body (res second_of_one) = Some (internalErrorMessage (limited 1)) /\
   passed second_of_one = false) /\
  (calm OpExists = true -> status (res second_of_one) = Some 500) /\
  (status (res second_of_one) = Some 500 <->
   Exists (fun c => erred calm c = true) (trace second_of_one)) /\
  ((passed second_of_one = true /\ status (res second_of_one) = None) \/
   (passed second_of_one = false /\ status (res second_of_one) = Some 429) \/
   (passed second_of_one = false /\ status (res second_of_one) = Some 500)).
Proof.
  split; [reflexivity|].
  apply (C4_headers_on_decision (limited 1) calm req_items one_request).
  reflexivity.
Defined.

(** C5 at the same request: limit 1, nothing remaining, a window of 60000
    ms of which 59990 are left. *)
Lemma C5_witness :
  deriveKey (limited 1) req_items = Some items_key /\
  rateLimit (limited 1) calm req_items (arrival one_request) = Some second_of_one /\
  headers (res second_of_one) <> ∅ /\
  headers (res second_of_one) !! "X-RateLimit-Limit"%string = Some (JNum (Num 1)) /\
  headers (res second_of_one) !! "X-RateLimit-Remaining"%string = Some (JNum (Num 0)) /\
  headers (res second_of_one) !! "X-RateLimit-Window"%string = Some (JNum (Num 60000)) /\
  headers (res second_of_one) !! "X-RateLimit-Reset"%string = Some (JNum (Num 59990)).
Proof.
  assert (Hset : headers (res second_of_one) <> ∅).
  { intros H. apply (f_equal (fun m => m !! "X-RateLimit-Limit"%string)) in H.
    vm_compute in H. discriminate H. }
  split; [reflexivity|]. split; [reflexivity|]. split; [exact Hset|].
  destruct (C5_header_values (limited 1) calm req_items items_key one_request
              second_of_one eq_refl eq_refl Hset)
    as (H1 & H2 & _ & H3 & H4 & _).
  repeat split; assumption.
Defined.

(** C6 at the same request: rejected, and the database is as before. *)
Lemma C6_witness :
  rateLimit (limited 1) calm req_items (arrival one_request) = Some second_of_one /\
  status (res second_of_one) = Some 429 /\
  db second_of_one = one_request /\
  Forall (fun c => is_write c = false) (trace second_of_one).
Proof.
  split; [reflexivity|]. split; [reflexivity|].
  apply (proj1 C6_denied_request_leaves_store (limited 1) calm req_items one_request);
    reflexivity.
Defined.

(** C7 on the three requests under [{ requestLimit: 2 }]. *)
Lemma C7_witness :
  requestLimit (limited 2) = JNum (Num 2) /\
  timeWindow (limited 2) = JNum (Num 60) /\
  0 < 60 /\
  (∅ : gmap string entry) !! items_key = None /\
  same_key (limited 2) items_key three_requests /\
  span three_requests < 60 * 1000 /\
  (forall j w, serve (limited 2) three_requests ∅ !! j = Some w ->
     exists r, remaining_of w = Some r /\ 0 <= r /\ (2 <= Z.of_nat j + 1 -> r = 0)) /\
  (forall i j wi wj ri rj, (i <= j)%nat ->
     serve (limited 2) three_requests ∅ !! i = Some wi ->
     serve (limited 2) three_requests ∅ !! j = Some wj ->
     remaining_of wi = Some ri -> remaining_of wj = Some rj ->
     rj <= ri).
Proof.
  assert (Hsame : same_key (limited 2) items_key three_requests).
  { repeat constructor; cbn; lia. }
  repeat (split; [first [reflexivity | lia | exact Hsame]|]).
  apply (C7_remaining_monotone (limited 2) items_key 2 60 three_requests ∅);
    first [reflexivity | lia | exact Hsame].
Defined.




(** * Further properties of the module *)

(** ** The constructor *)

(** What [defaults] makes of a checked property. *)
Lemma default_to_defined (v d : jsval) :
  d <> JUndefined -> default_to v d <> JUndefined.
Proof. intros Hd. destruct v; cbn; congruence. Qed.

Lemma default_to_truthy (v d : jsval) :
  truthy (default_to v d) = true ->
  (v = JUndefined /\ default_to v d = d) \/ (truthy v = true /\ default_to v d = v).
Proof. destruct v; cbn; auto. Qed.

Lemma checkOptions_inr (o o' : Options) : checkOptions o = inr o' -> o' = o.
Proof.
  unfold checkOptions.
  repeat match goal with
         | |- context [if ?b then _ else _] => destruct b
         end; congruence.
Qed.

(** None of the checks on the properties throws the error of the check on
    the argument itself. *)
Lemma checkOptions_message (o : Options) :
  checkOptions o <> inl "Options must be an object."%string.
Proof.
  unfold checkOptions.
  repeat match goal with
         | |- context [if ?b then _ else _] => destruct b
         end; discriminate.
Qed.

(** X1.  The second argument of the constructor, whatever it is.  The error
    "Options must be an object." is thrown for the truthy values that are
    not objects (a number other than 0, a non-empty string, [true], a
    function) and for no other value.  A falsy argument ([undefined],
    [null], [false], [0], [NaN], ['']) and every object none of whose
    option properties is defined ([{}], an object with other properties
    only, a regular expression) give the middleware its defaults. *)
Theorem options_argument_kinds (v : jsval) :
  (ExpressRedisRateLimit (ArgOther v) = inl "Options must be an object."%string <->
   truthy v = true /\ typeof v <> TObject) /\
  (truthy v = false \/ (typeof v = TObject /\ options_of v = emptyOptions) ->
   ExpressRedisRateLimit (ArgOther v) = inr defaultOptions).
Proof.
  unfold ExpressRedisRateLimit, validateOptions.
  split.
  - destruct (truthy v) eqn:Ht; cbn [negb].
    + destruct (jstype_eqb (typeof v) TObject) eqn:Hq; cbn [negb].
      * assert (Hty : typeof v = TObject)
          by (destruct (typeof v); cbn in Hq; congruence).
        pose proof (checkOptions_message (options_of v)) as Hm.
        destruct (checkOptions (options_of v)) as [msg|o].
        -- split; [congruence|]. intros [_ Hn]. now contradiction Hn.
        -- split; [discriminate|]. intros [_ Hn]. now contradiction Hn.
      * split; [|reflexivity]. intros _. split; [reflexivity|].
        intros Hty. rewrite Hty in Hq. discriminate.
    + split; [discriminate|]. intros [? _]. discriminate.
  - intros [->|[Hty Hnone]]; [reflexivity|].
    destruct (truthy v); cbn [negb]; [|reflexivity].
    rewrite Hty, Hnone. reflexivity.
Qed.

(** X1 at [{}] and at an object that has another property only. *)
Lemma options_argument_kinds_witness :
  ExpressRedisRateLimit (ArgOther (JObj [])) = inr defaultOptions /\
  ExpressRedisRateLimit (ArgOther (JObj [("limit"%string, JNum (Num 5))]))
    = inr defaultOptions.
Proof.
  split.
  - apply (options_argument_kinds (JObj [])). right. split; reflexivity.
  - apply (options_argument_kinds (JObj [("limit"%string, JNum (Num 5))])).
    right. split; reflexivity.
Defined.

Lemma constructed_defaults (o cfg : Options) :
  ExpressRedisRateLimit (ArgOptions o) = inr cfg ->
  cfg = defaults o defaultOptions.
Proof.
  unfold ExpressRedisRateLimit, validateOptions.
  destruct (checkOptions o) as [msg|o'] eqn:Hchk; [discriminate|].
  intros [= <-]. apply checkOptions_inr in Hchk. now subst o'.
Qed.

(** X2.  The options of a middleware that was constructed are the user's
    own where given and the defaults elsewhere; none of the seven is
    [undefined]; and each one that is truthy has the type its use needs:
    [requestLimit] and [timeWindow] are positive numbers, [createKey] is a
    function, [idMatcher] and [internalErrorMessage] are objects,
    [rateLimitMessage] is a function or an object. *)
Theorem constructed_options_are_typed (o cfg : Options) :
  ExpressRedisRateLimit (ArgOptions o) = inr cfg ->
  cfg = defaults o defaultOptions /\
  (requestLimit cfg <> JUndefined /\ timeWindow cfg <> JUndefined /\
   idMatcher cfg <> JUndefined /\ idValue cfg <> JUndefined /\
   createKey cfg <> JUndefined /\ rateLimitMessage cfg <> JUndefined /\
   internalErrorMessage cfg <> JUndefined) /\
  (truthy (requestLimit cfg) = true ->
   exists n, requestLimit cfg = JNum (Num n) /\ 0 < n) /\
  (truthy (timeWindow cfg) = true ->
   exists t, timeWindow cfg = JNum (Num t) /\ 0 < t) /\
  (truthy (createKey cfg) = true -> typeof (createKey cfg) = TFunction) /\
  (truthy (idMatcher cfg) = true -> typeof (idMatcher cfg) = TObject) /\
  (truthy (internalErrorMessage cfg) = true ->
   typeof (internalErrorMessage cfg) = TObject) /\
  (truthy (rateLimitMessage cfg) = true ->
   typeof (rateLimitMessage cfg) = TFunction \/
   typeof (rateLimitMessage cfg) = TObject).
Proof.
  unfold ExpressRedisRateLimit, validateOptions.
  destruct (checkOptions o) as [msg|o'] eqn:Hchk; [discriminate|].
  intros [= <-]. apply checkOptions_inr in Hchk as Ho. subst o'.
  split; [reflexivity|].
  split; [repeat split; apply default_to_defined; discriminate|].
  unfold checkOptions in Hchk.
  destruct (truthy (requestLimit o) && _) eqn:H1; [discriminate|].
  destruct (truthy (timeWindow o) && _) eqn:H2; [discriminate|].
  destruct (truthy (idMatcher o) && negb _) eqn:H3; [discriminate|].
  destruct (truthy (idMatcher o) && truthy (idValue o) && _) eqn:H4; [discriminate|].
  destruct (truthy (createKey o) && _) eqn:H5; [discriminate|].
  destruct (truthy (rateLimitMessage o) && _) eqn:H6; [discriminate|].
  destruct (truthy (internalErrorMessage o) && _) eqn:H7; [discriminate|].
  cbn [defaults requestLimit timeWindow idMatcher idValue createKey rateLimitMessage
       internalErrorMessage].
  repeat split.
  - intros Ht. destruct (default_to_truthy _ _ Ht) as [[_ ->]|[Hv ->]].
    + exists 60. split; [reflexivity|lia].
    + rewrite Hv in H1. destruct (requestLimit o) as [| | |[n|]| | | |]; try discriminate.
      cbn in H1. exists n. split; [reflexivity|].
      destruct (Z.ltb_spec 0 n); [assumption|discriminate].
  - intros Ht. destruct (default_to_truthy _ _ Ht) as [[_ ->]|[Hv ->]].
    + exists 60. split; [reflexivity|lia].
    + rewrite Hv in H2. destruct (timeWindow o) as [| | |[n|]| | | |]; try discriminate.
      cbn in H2. exists n. split; [reflexivity|].
      destruct (Z.ltb_spec 0 n); [assumption|discriminate].
  - intros Ht. destruct (default_to_truthy _ _ Ht) as [[_ ->]|[Hv ->]]; [reflexivity|].
    rewrite Hv in H5. now destruct (createKey o).
  - intros Ht. destruct (default_to_truthy _ _ Ht) as [[_ ->]|[Hv ->]]; [reflexivity|].
    rewrite Hv in H3. now destruct (idMatcher o).
  - intros Ht. destruct (default_to_truthy _ _ Ht) as [[_ ->]|[Hv ->]]; [reflexivity|].
    rewrite Hv in H7. now destruct (internalErrorMessage o).
  - intros Ht. destruct (default_to_truthy _ _ Ht) as [[_ ->]|[Hv ->]]; [now left|].
    rewrite Hv in H6. destruct (rateLimitMessage o); cbn in *; auto; discriminate.
Qed.

(** X2 at [{ requestLimit: 2 }]. *)
Lemma constructed_options_are_typed_witness :
  ExpressRedisRateLimit (ArgOptions (limit_only 2)) = inr (limited 2) /\
  limited 2 = defaults (limit_only 2) defaultOptions /\
  (truthy (requestLimit (limited 2)) = true ->
   exists n, requestLimit (limited 2) = JNum (Num n) /\ 0 < n) /\
  (truthy (createKey (limited 2)) = true -> typeof (createKey (limited 2)) = TFunction).
Proof.
  split; [reflexivity|].
  destruct (constructed_options_are_typed (limit_only 2) (limited 2) eq_refl)
    as (H0 & _ & H1 & _ & H2 & _).
  auto.
Defined.

(** X3.  An option that is given (truthy) with the wrong type makes the
    constructor throw: a [requestLimit] or [timeWindow] that is not a number,
    an [idMatcher] or [internalErrorMessage] that is not an object, a
    [createKey] that is not a function, a [rateLimitMessage] that is neither
    a function nor an object. *)
Theorem mistyped_options_throw (o : Options) :
  (truthy (requestLimit o) = true /\ typeof (requestLimit o) <> TNumber) \/
  (truthy (timeWindow o) = true /\ typeof (timeWindow o) <> TNumber) \/
  (truthy (idMatcher o) = true /\ typeof (idMatcher o) <> TObject) \/
  (truthy (createKey o) = true /\ typeof (createKey o) <> TFunction) \/
  (truthy (rateLimitMessage o) = true /\
   typeof (rateLimitMessage o) <> TFunction /\
   typeof (rateLimitMessage o) <> TObject) \/
  (truthy (internalErrorMessage o) = true /\
   typeof (internalErrorMessage o) <> TObject) ->
  exists msg, ExpressRedisRateLimit (ArgOptions o) = inl msg.
Proof.
  intros Hbad. unfold ExpressRedisRateLimit.
  assert (H : exists msg, validateOptions (ArgOptions o) = inl msg);
    [|destruct H as [msg ->]; eauto].
  unfold validateOptions, checkOptions.
  destruct (truthy (requestLimit o) && _) eqn:H1; [eauto|].
  destruct (truthy (timeWindow o) && _) eqn:H2; [eauto|].
  destruct (truthy (idMatcher o) && negb _) eqn:H3; [eauto|].
  destruct (truthy (idMatcher o) && truthy (idValue o) && _) eqn:H4; [eauto|].
  destruct (truthy (createKey o) && _) eqn:H5; [eauto|].
  destruct (truthy (rateLimitMessage o) && _) eqn:H6; [eauto|].
  destruct (truthy (internalErrorMessage o) && _) eqn:H7; [eauto|].
  exfalso.
  destruct Hbad as [[Ht Hty]|[[Ht Hty]|[[Ht Hty]|[[Ht Hty]|[(Ht & Hty & Hty')|[Ht Hty]]]]]].
  - rewrite Ht in H1. destruct (requestLimit o); cbn in *; congruence.
  - rewrite Ht in H2. destruct (timeWindow o); cbn in *; congruence.
  - rewrite Ht in H3. destruct (idMatcher o); cbn in *; congruence.
  - rewrite Ht in H5. destruct (createKey o); cbn in *; congruence.
  - rewrite Ht in H6. destruct (rateLimitMessage o); cbn in *; congruence.
  - rewrite Ht in H7. destruct (internalErrorMessage o); cbn in *; congruence.
Qed.

(** X3 at [{ createKey: 'key' }]. *)
Lemma mistyped_options_throw_witness :
  (truthy (createKey text_createKey) = true /\
   typeof (createKey text_createKey) <> TFunction) /\
  exists msg, ExpressRedisRateLimit (ArgOptions text_createKey) = inl msg.
Proof.
  assert (Hbad : truthy (createKey text_createKey) = true /\
                 typeof (createKey text_createKey) <> TFunction).
  { split; [reflexivity|discriminate]. }
  split; [exact Hbad|].
  apply (mistyped_options_throw text_createKey). do 3 right. left. exact Hbad.
Defined.

(** X4.  The guard on [createKey] skips a value that is falsy: given as
    [null], [false], [0] or [''] it passes the constructor, is not replaced
    by the default, and then every request throws at the call
    [options.createKey(req)], before any command is sent to the store. *)
Theorem falsy_createKey_throws_per_request (o cfg : Options)
    (faults : cache_op -> bool) (req : request) (w : world) :
  ExpressRedisRateLimit (ArgOptions o) = inr cfg ->
  createKey o <> JUndefined ->
  truthy (createKey o) = false ->
  createKey cfg = createKey o /\ rateLimit cfg faults req w = None.
Proof.
  intros Hc Hdef Hfalsy.
  rewrite (constructed_defaults o cfg Hc).
  assert (Hk : createKey (defaults o defaultOptions) = createKey o).
  { cbn. destruct (createKey o); cbn; congruence. }
  split; [exact Hk|].
  unfold rateLimit, deriveKey. rewrite Hk.
  destruct (createKey o); cbn in *; congruence.
Qed.

(** X4 at [{ createKey: null }]. *)
Lemma falsy_createKey_throws_per_request_witness :
  ExpressRedisRateLimit (ArgOptions null_createKey)
    = inr (defaults null_createKey defaultOptions) /\
  createKey null_createKey <> JUndefined /\
  truthy (createKey null_createKey) = false /\
  createKey (defaults null_createKey defaultOptions) = JNull /\
  rateLimit (defaults null_createKey defaultOptions) calm req_items (arrival ∅) = None.
Proof.
  assert (Hdef : createKey null_createKey <> JUndefined) by discriminate.
  split; [reflexivity|]. split; [exact Hdef|]. split; [reflexivity|].
  apply (falsy_createKey_throws_per_request null_createKey _ calm req_items (arrival ∅)
           eq_refl Hdef eq_refl).
Defined.

(** ** The response *)

(** X5.  The body of a 429 is what [rateLimitMessage] gives: a function is
    called with the time to live of the decision, the same number the
    [X-RateLimit-Reset] header carries, and its result is the body; any
    other value is the body as it is. *)
Theorem rejection_body_rendered (options : Options) (faults : cache_op -> bool)
    (req : request) (key : string) (d : gmap string entry) (w' : world) :
  deriveKey options req = Some key ->
  rateLimit options faults req (arrival d) = Some w' ->
  status (res w') = Some 429 ->
  let ttl :=
    match d !! key with
    | Some e => Num (match expires_in e with Some t => t | None => -1 end)
    | None => jmul (to_number (timeWindow options)) (Num 1000)
    end in
  headers (res w') !! "X-RateLimit-Reset"%string = Some (JNum ttl) /\
  (forall f g, rateLimitMessage options = JFun f g -> body (res w') = Some (g ttl)) /\
  (typeof (rateLimitMessage options) <> TFunction ->
   body (res w') = Some (rateLimitMessage options)).
Proof.
  intros Hkey Hrun Hst ttl.
  destruct (rateLimit_outcome _ _ _ _ _ Hrun) as (key' & Hkey' & Hout).
  assert (key' = key) as -> by congruence.
  assert (Ht : seen_ttl options key d = ttl).
  { unfold seen_ttl, ttl. now destruct (d !! key). }
  destruct Hout as [(Hr & _)|[(-> & Ha)|(-> & Ha)]].
  - rewrite Hr in Hst. discriminate.
  - rewrite verdict_at_limit by assumption. cbn [res headers body]. rewrite Ht.
    destruct (decision_headers_lookup options (seen_count key d) ttl) as (_ & _ & _ & ->).
    split; [reflexivity|]. unfold rejection_body. split.
    + intros f g ->. reflexivity.
    + intros Hty. destruct (rateLimitMessage options); try reflexivity.
      now contradiction Hty.
  - rewrite verdict_under_limit in Hst by assumption. discriminate.
Qed.

(** X5 at the second request under [{ requestLimit: 1 }]: the default
    message for the 59990 ms left. *)
Lemma rejection_body_rendered_witness :
  deriveKey (limited 1) req_items = Some items_key /\
  rateLimit (limited 1) calm req_items (arrival one_request) = Some second_of_one /\
  status (res second_of_one) = Some 429 /\
  headers (res second_of_one) !! "X-RateLimit-Reset"%string = Some (JNum (Num 59990)) /\
  body (res second_of_one) = Some (default_rateLimitMessage (Num 59990)).
Proof.
  split; [reflexivity|]. split; [reflexivity|]. split; [reflexivity|].
  destruct (rejection_body_rendered (limited 1) calm req_items items_key one_request
              second_of_one eq_refl eq_refl eq_refl) as (H1 & H2 & _).
  split; [exact H1|]. exact (H2 _ _ eq_refl).
Defined.

(** X6.  A request is passed on only after it has been counted: whatever
    the client reports, when [done()] is called no response was written, no
    error had been reported, and the commands sent are the reads followed
    by [INCR] and then [PEXPIRE] with the time to live that the
    [X-RateLimit-Reset] header carries. *)
Theorem passed_request_was_counted (options : Options) (faults : cache_op -> bool)
    (req : request) (key : string) (d : gmap string entry) (w' : world) :
  deriveKey options req = Some key ->
  rateLimit options faults req (arrival d) = Some w' ->
  passed w' = true ->
  exists ttl reads,
    trace w' = PEXPIRE key ttl :: INCR key :: reads /\
    Forall (fun c => is_write c = false) reads /\
    headers (res w') !! "X-RateLimit-Reset"%string = Some (JNum ttl) /\
    status (res w') = None /\ body (res w') = None /\
    db w' = (redis (PEXPIRE key ttl) (redis (INCR key) d).2).2.
Proof.
  intros Hkey Hrun Hp.
  destruct (rateLimit_outcome _ _ _ _ _ Hrun) as (key' & Hkey' & Hout).
  assert (key' = key) as -> by congruence.
  destruct Hout as [(_ & Hnp)|[(-> & Ha)|(-> & Ha)]].
  - congruence.
  - rewrite verdict_at_limit in Hp by assumption. discriminate.
  - rewrite verdict_under_limit by assumption. cbn [trace res headers status body db].
    exists (seen_ttl options key d), (seen_reads key d).
    destruct (decision_headers_lookup options (seen_count key d) (seen_ttl options key d))
      as (_ & _ & _ & ->).
    repeat split. unfold seen_reads. destruct (d !! key); repeat constructor.
Qed.

(** X6 at the first request under the default options. *)
Lemma passed_request_was_counted_witness :
  deriveKey defaultOptions req_items = Some items_key /\
  rateLimit defaultOptions calm req_items (arrival ∅)
    = Some (process defaultOptions calm items_key (arrival ∅)) /\
  passed (process defaultOptions calm items_key (arrival ∅)) = true /\
  exists ttl reads,
    trace (process defaultOptions calm items_key (arrival ∅))
      = PEXPIRE items_key ttl :: INCR items_key :: reads /\
    Forall (fun c => is_write c = false) reads.
Proof.
  assert (Hp : passed (process defaultOptions calm items_key (arrival ∅)) = true)
    by reflexivity.
  split; [reflexivity|]. split; [reflexivity|]. split; [exact Hp|].
  destruct (passed_request_was_counted defaultOptions calm req_items items_key ∅
              (process defaultOptions calm items_key (arrival ∅))
              eq_refl eq_refl Hp) as (ttl & reads & H1 & H2 & _).
  exists ttl, reads. split; assumption.
Defined.

(** X7.  [secondsHuman] rounds up to whole seconds: the number it prints is
    the least [n] with [ms <= n * 1000], followed by "second" when that is
    1 (from 1 ms to 1000 ms) and by "seconds" otherwise. *)
Theorem secondsHuman_rounds_up (ms : Z) :
  exists n,
    secondsHuman (Num ms)
      = string_of_Z n +:+ " " +:+ (if n =? 1 then "second" else "seconds") /\
    (n - 1) * 1000 < ms <= n * 1000 /\
    (n = 1 <-> 0 < ms <= 1000).
Proof.
  exists ((ms + 999) / 1000).
  pose proof (Z.div_mod (ms + 999) 1000 ltac:(lia)) as Hdm.
  pose proof (Z.mod_pos_bound (ms + 999) 1000 ltac:(lia)) as Hmod.
  split; [|split; [lia|lia]].
  unfold secondsHuman, ceil_seconds, pluralize_second. cbn [string_of_jsnum].
  destruct (Z.eqb_spec ((ms + 999) / 1000) 1) as [->|Hne]; [reflexivity|].
  destruct ((ms + 999) / 1000) as [|[]|]; try reflexivity. now contradiction Hne.
Qed.

(** ** One key at a time *)

Lemma redis_other (c : command) (d : gmap string entry) (k' : string) :
  k' <> key_of c -> (redis c d).2 !! k' = d !! k'.
Proof.
  intros Hne. destruct c as [k|k|k|k|k [ms|]]; cbn in *; try reflexivity.
  - destruct (d !! k); cbn; now rewrite lookup_insert_ne by congruence.
  - destruct (d !! k); cbn; [|reflexivity].
    destruct (ms <=? 0).
    + now rewrite lookup_delete_ne by congruence.
    + now rewrite lookup_insert_ne by congruence.
Qed.

Lemma attempt_db (options : Options) (faults : cache_op -> bool) (c : command)
    (w : world) :
  inflight options w ->
  db (attempt options faults c w).2 = db w \/
  db (attempt options faults c w).2 = (redis c (db w)).2.
Proof.
  intros Hw. unfold attempt.
  destruct (faults (op_of c)); [left; now apply once_failure_inflight|].
  destruct (redis c (db w)) as [[e|reply] d'];
    [left; now apply once_failure_inflight|right; reflexivity].
Qed.

Lemma attempt_on_key (options : Options) (faults : cache_op -> bool)
    (key : string) (d : gmap string entry) (c : command) (w : world) :
  key_of c = key ->
  on_key options key d w ->
  on_key options key d (attempt options faults c w).2.
Proof.
  intros Hc (Hw & Hframe & Hkeys & cmds & Htr).
  split; [now apply attempt_inflight|]. split; [|split].
  - intros k' Hne.
    destruct (attempt_db options faults c w Hw) as [-> | ->]; [now apply Hframe|].
    rewrite redis_other by congruence. now apply Hframe.
  - rewrite attempt_trace by assumption. now constructor.
  - exists (c :: cmds). rewrite attempt_trace by assumption. now rewrite Htr.
Qed.

Lemma process_on_key (options : Options) (faults : cache_op -> bool)
    (key : string) (d : gmap string entry) :
  (forall k', k' <> key ->
     db (process options faults key (arrival d)) !! k' = d !! k') /\
  Forall (fun c => key_of c = key) (trace (process options faults key (arrival d))) /\
  exists cmds, trace (process options faults key (arrival d)) = cmds ++ [EXISTS key].
Proof.
  rewrite process_direct. unfold direct, observe.
  set (a1 := attempt options faults (EXISTS key) (arrival d)).
  assert (K1 : on_key options key d a1.2).
  { split; [apply attempt_inflight, inflight_arrival|]. split; [|split].
    - intros k' Hne.
      destruct (attempt_db options faults (EXISTS key) (arrival d)
                  (inflight_arrival options d)) as [Hd | Hd]; fold a1 in Hd;
        rewrite Hd; [reflexivity|].
      now rewrite redis_other by (cbn; congruence).
    - unfold a1. rewrite attempt_trace by apply inflight_arrival. now repeat constructor.
    - exists []. unfold a1. now rewrite attempt_trace by apply inflight_arrival. }
  set (ex := truthy (JNum (parseInt a1.1))).
  set (a2 := if ex then attempt options faults (GET key) a1.2 else (JUndefined, a1.2)).
  assert (K2 : on_key options key d a2.2).
  { unfold a2. destruct ex; [now apply attempt_on_key|exact K1]. }
  set (a3 := if ex then attempt options faults (PTTL key) a2.2 else (JUndefined, a2.2)).
  assert (K3 : on_key options key d a3.2).
  { unfold a3. destruct ex; [now apply attempt_on_key|exact K2]. }
  set (count := if ex then _ else _). set (ttl := if ex then _ else _).
  set (atLimit := jgt count (to_number (requestLimit options))).
  assert (K5 : on_key options key d (commit options faults key ttl atLimit a3.2)).
  { unfold commit. destruct atLimit; [exact K3|].
    apply attempt_on_key; [reflexivity|]. now apply attempt_on_key. }
  set (w5 := commit options faults key ttl atLimit a3.2) in *.
  destruct K5 as (H5 & Hframe & Hkeys & Hfirst).
  destruct (once_gate_store options (Success (count, ttl, atLimit)) w5) as (Hdb & Htr).
  rewrite Hdb, Htr. auto.
Qed.

(** X8.  A request only ever concerns its own key.  Whatever the client
    reports, the first command sent is [EXISTS] on the derived key, every
    command sent is about that key, and the entry of every other key is
    left as it was. *)
Theorem other_keys_untouched (options : Options) (faults : cache_op -> bool)
    (req : request) (key : string) (d : gmap string entry) (w' : world) :
  deriveKey options req = Some key ->
  rateLimit options faults req (arrival d) = Some w' ->
  (forall k', k' <> key -> db w' !! k' = d !! k') /\
  Forall (fun c => key_of c = key) (trace w') /\
  exists later, rev (trace w') = EXISTS key :: later.
Proof.
  intros Hkey Hrun. unfold rateLimit in Hrun. rewrite Hkey in Hrun.
  injection Hrun as <-.
  destruct (process_on_key options faults key d) as (Hframe & Hkeys & cmds & Htr).
  split; [exact Hframe|]. split; [exact Hkeys|].
  exists (rev cmds). rewrite Htr, rev_app_distr. reflexivity.
Qed.

(** X8 at a request whose [exists] fails, on a database that holds another
    key. *)
Lemma other_keys_untouched_witness :
  deriveKey defaultOptions (req_item "5") = Some "RL/10.0.0.1/GET/items/5"%string /\
  rateLimit defaultOptions exists_fails (req_item "5") (arrival one_request)
    = Some (process defaultOptions exists_fails "RL/10.0.0.1/GET/items/5"
              (arrival one_request)) /\
  db (process defaultOptions exists_fails "RL/10.0.0.1/GET/items/5"
        (arrival one_request)) !! items_key
    = one_request !! items_key.
Proof.
  split; [reflexivity|]. split; [reflexivity|].
  destruct (other_keys_untouched defaultOptions exists_fails (req_item "5")
              "RL/10.0.0.1/GET/items/5" one_request _ eq_refl eq_refl)
    as (Hframe & _).
  apply Hframe. discriminate.
Defined.

(** ** Windows *)

Section Windows.

Variable options : Options.
Variable key : string.
Variables N T : Z.
Hypothesis limit_is : requestLimit options = JNum (Num N).
Hypothesis window_is : timeWindow options = JNum (Num T).

Lemma reset_of_verdict (d : gmap string entry) :
  reset_of (Some (verdict options key d))
  = Some (match d !! key with
          | Some e => match expires_in e with Some t => t | None => -1 end
          | None => T * 1000
          end).
Proof.
  assert (Hh : headers (res (verdict options key d))
               = decision_headers options (seen_count key d) (seen_ttl options key d)).
  { destruct (at_limit options key d) eqn:Ha;
      [rewrite verdict_at_limit|rewrite verdict_under_limit]; auto. }
  unfold reset_of. rewrite Hh.
  destruct (decision_headers_lookup options (seen_count key d) (seen_ttl options key d))
    as (_ & _ & _ & ->).
  now rewrite (seen_ttl_is options key T window_is).
Qed.

End Windows.

(** ** Time within a request *)

(** With the client itself for [call], the tasks are those of the
    middleware. *)
Lemma process_on_cache_call (options : Options) (faults : cache_op -> bool)
    (key : string) (w : world) :
  process_on options (cache_call faults) key w = process options faults key w.
Proof. reflexivity. Qed.

(** One call on the slow client, as the tasks make it. *)
Lemma slow_call_report {A : Type} (options : Options) (lag : cache_op -> Z)
    (faults : cache_op -> bool) (next : callback A) (c : command)
    (f : jsval -> A) (w : world) :
  (forall e w', next (Failure e) w' = once (rateLimitGate options) (Failure e) w') ->
  slow_call lag faults c (fun error reply => report next error (f reply)) w
  = next (Success (f (attempt options faults c (later (lag (op_of c)) w)).1))
         (attempt options faults c (later (lag (op_of c)) w)).2.
Proof. intros H. unfold slow_call. now apply cache_call_report. Qed.

Lemma slow_attempt (options : Options) (c : command) (ms : Z) (w : world) (r : jsval)
    (d' : gmap string entry) :
  redis c (elapse ms (db w)) = (inr r, d') ->
  attempt options calm c (later ms w) = (r, sent c d' (later ms w)).
Proof. intros H. now apply attempt_calm. Qed.

(** X9.  An allowed request pushes the deadline of its window later.
    Task 5 sets the expiry anew to the time to live that task 3 read, so
    when time passes between the two commands (here [lag op] milliseconds
    before each command reaches the server) a request on a running counter
    that is let through leaves the key with exactly what [PTTL] reported,
    the value that [X-RateLimit-Reset] carries: [write_lag] more than is
    left of the time the key had when the request arrived.  A request that
    is rejected sends no [PEXPIRE] and leaves the deadline where it was. *)
Theorem allowed_request_pushes_deadline (options : Options) (key : string) (N : Z)
    (lag : cache_op -> Z) (d : gmap string entry) (c t : Z) :
  requestLimit options = JNum (Num N) ->
  d !! key = Some {| stored := c; expires_in := Some t |} ->
  (forall op, 0 <= lag op) ->
  read_lag lag + write_lag lag < t ->
  let w' := process_on options (slow_call lag calm) key (arrival d) in
  (c + 1 <= N ->
   passed w' = true /\
   reset_of (Some w') = Some (t - read_lag lag) /\
   db w' !! key
   = Some {| stored := c + 1;
             expires_in := Some (t - (read_lag lag + write_lag lag) + write_lag lag) |} /\
   elapse (read_lag lag + write_lag lag) d !! key
   = Some {| stored := c;
             expires_in := Some (t - (read_lag lag + write_lag lag)) |}) /\
  (N < c + 1 ->
   status (res w') = Some 429 /\
   reset_of (Some w') = Some (t - read_lag lag) /\
   db w' !! key = elapse (read_lag lag) d !! key /\
   db w' !! key = Some {| stored := c; expires_in := Some (t - read_lag lag) |}).
Proof.
  intros HN Hk Hlag Htot w'.
  unfold read_lag, write_lag in *.
  pose proof (Hlag OpExists) as L1. pose proof (Hlag OpGet) as L2.
  pose proof (Hlag OpPttl) as L3. pose proof (Hlag OpIncr) as L4.
  pose proof (Hlag OpPexpire) as L5.
  set (l1 := lag OpExists) in *. set (l2 := lag OpGet) in *.
  set (l3 := lag OpPttl) in *. set (l4 := lag OpIncr) in *.
  set (l5 := lag OpPexpire) in *.
  set (d1 := elapse l1 d).
  assert (K1 : d1 !! key = Some {| stored := c; expires_in := Some (t - l1) |})
    by (apply elapse_present; [assumption|lia]).
  set (d2 := elapse l2 d1).
  assert (K2 : d2 !! key = Some {| stored := c; expires_in := Some (t - l1 - l2) |})
    by (apply elapse_present; [assumption|lia]).
  set (d3 := elapse l3 d2).
  assert (K3 : d3 !! key = Some {| stored := c; expires_in := Some (t - l1 - l2 - l3) |})
    by (apply elapse_present; [assumption|lia]).
  set (w1 := sent (EXISTS key) d1 (later l1 (arrival d))).
  assert (A1 : attempt options calm (EXISTS key) (later l1 (arrival d))
               = (JNum (Num 1), w1)).
  { apply slow_attempt. cbn [redis db arrival]. fold d1. now rewrite K1. }
  set (w2 := sent (GET key) d2 (later l2 w1)).
  assert (A2 : attempt options calm (GET key) (later l2 w1)
               = (JStr (string_of_Z c), w2)).
  { apply slow_attempt. cbn [redis db sent w1]. fold d2. now rewrite K2. }
  set (w3 := sent (PTTL key) d3 (later l3 w2)).
  assert (A3 : attempt options calm (PTTL key) (later l3 w2)
               = (JNum (Num (t - l1 - l2 - l3)), w3)).
  { apply slow_attempt. cbn [redis db sent w2]. fold d3. now rewrite K3. }
  assert (Hrun : w' = wrapIterator
            (once (rateLimitGate options))
            (fun a => incrRequestCount_on options (slow_call lag calm) key a
               (wrapIterator (once (rateLimitGate options))
                  (fun b => setRequestTTL_on (slow_call lag calm) key b
                              (once (rateLimitGate options)))))
            (Success (Num (c + 1), Num (t - l1 - l2 - l3))) w3).
  { unfold w', process_on, waterfall, checkRequestExists_on.
    rewrite (slow_call_report options) by reflexivity.
    cbn [op_of]. fold l1. rewrite A1. cbn [fst snd wrapIterator parseInt truthy Z.eqb negb].
    unfold getRequestCount_on.
    rewrite (slow_call_report options _ _ _ _ (fun reply => (true, jadd (parseInt reply) (Num 1))))
      by reflexivity.
    cbn [op_of]. fold l2. rewrite A2. cbn [fst snd wrapIterator getRequestTTL_on].
    rewrite (slow_call_report options _ _ _ _ (fun reply => (_, parseInt reply))) by reflexivity.
    cbn [op_of]. fold l3. rewrite A3. cbn [fst snd]. 
    rewrite parseInt_string_of_Z. reflexivity. }
  clearbody w'. subst w'.
  cbn [wrapIterator incrRequestCount_on]. rewrite HN. cbn [to_number jgt].
  split.
  - intros Hc.
    destruct (Z.ltb_spec N (c + 1)) as [?|_]; [lia|].
    set (d4 := elapse l4 d3).
    assert (K4 : d4 !! key
                 = Some {| stored := c; expires_in := Some (t - l1 - l2 - l3 - l4) |})
      by (apply elapse_present; [assumption|lia]).
    set (e4 := {| stored := c + 1; expires_in := Some (t - l1 - l2 - l3 - l4) |}).
    set (w4 := sent (INCR key) (<[key := e4]> d4) (later l4 w3)).
    assert (A4 : attempt options calm (INCR key) (later l4 w3)
                 = (JNum (Num (c + 1)), w4)).
    { apply slow_attempt. cbn [redis db sent w3]. fold d4. now rewrite K4. }
    set (d5 := elapse l5 (<[key := e4]> d4)).
    assert (K5 : d5 !! key
                 = Some {| stored := c + 1;
                           expires_in := Some (t - l1 - l2 - l3 - l4 - l5) |}).
    { apply elapse_present; [apply lookup_insert_eq|lia]. }
    set (e5 := {| stored := c + 1; expires_in := Some (t - l1 - l2 - l3) |}).
    set (w5 := sent (PEXPIRE key (Num (t - l1 - l2 - l3))) (<[key := e5]> d5)
                    (later l5 w4)).
    assert (A5 : attempt options calm (PEXPIRE key (Num (t - l1 - l2 - l3))) (later l5 w4)
                 = (JNum (Num 1), w5)).
    { apply slow_attempt. cbn [redis db sent w4]. fold d5. rewrite K5.
      destruct (Z.leb_spec (t - l1 - l2 - l3) 0); [lia|reflexivity]. }
    rewrite (slow_call_report options _ _ _ _ (fun _ => (_, _, false))) by reflexivity.
    cbn [op_of]. fold l4. rewrite A4. cbn [fst snd wrapIterator setRequestTTL_on].
    rewrite (slow_call_report options _ _ _ _ (fun _ => (_, _, false))) by reflexivity.
    cbn [op_of]. fold l5. rewrite A5. cbn [fst snd].
    assert (Hend : once (rateLimitGate options)
                     (Success (Num (c + 1), Num (t - l1 - l2 - l3), false)) w5
                   = {| db := <[key := e5]> d5; trace := trace w5;
                        res := {| status := None; body := None;
                                  headers := decision_headers options (Num (c + 1))
                                               (Num (t - l1 - l2 - l3)) |};
                        passed := true; settled := true |}) by reflexivity.
    rewrite Hend. cbn [passed db res headers reset_of].
    destruct (decision_headers_lookup options (Num (c + 1)) (Num (t - l1 - l2 - l3)))
      as (_ & _ & _ & ->).
    split; [reflexivity|]. split; [f_equal; lia|]. split.
    + rewrite lookup_insert_eq. unfold e5. do 3 f_equal. lia.
    + apply elapse_present; [assumption|lia].
  - intros Hc.
    destruct (Z.ltb_spec N (c + 1)) as [_|?]; [|lia].
    cbn [wrapIterator setRequestTTL_on].
    assert (Hend : once (rateLimitGate options)
                     (Success (Num (c + 1), Num (t - l1 - l2 - l3), true)) w3
                   = {| db := d3; trace := trace w3;
                        res := {| status := Some 429;
                                  body := Some (rejection_body options
                                                  (Num (t - l1 - l2 - l3)));
                                  headers := decision_headers options (Num (c + 1))
                                               (Num (t - l1 - l2 - l3)) |};
                        passed := false; settled := true |}) by reflexivity.
    rewrite Hend. cbn [passed db res headers reset_of status].
    destruct (decision_headers_lookup options (Num (c + 1)) (Num (t - l1 - l2 - l3)))
      as (_ & _ & _ & ->).
    split; [reflexivity|]. split; [f_equal; lia|].
    assert (Hd3 : elapse (l1 + l2 + l3) d !! key
                  = Some {| stored := c; expires_in := Some (t - (l1 + l2 + l3)) |})
      by (apply elapse_present; [assumption|lia]).
    rewrite Hd3, K3. split; do 3 f_equal; lia.
Qed.

(** X9 at the second request under [{ requestLimit: 2 }], with commands
    3 ms apart: 59975 ms were left of the window, 59981 ms are. *)
Lemma allowed_request_pushes_deadline_witness :
  requestLimit (limited 2) = JNum (Num 2) /\
  one_request !! items_key = Some {| stored := 1; expires_in := Some 59990 |} /\
  (forall op, 0 <= three_ms op) /\
  read_lag three_ms + write_lag three_ms < 59990 /\
  1 + 1 <= 2 /\
  db (process_on (limited 2) (slow_call three_ms calm) items_key (arrival one_request))
    !! items_key
  = Some {| stored := 1 + 1;
            expires_in := Some (59990 - (read_lag three_ms + write_lag three_ms)
                                + write_lag three_ms) |} /\
  elapse (read_lag three_ms + write_lag three_ms) one_request !! items_key
  = Some {| stored := 1;
            expires_in := Some (59990 - (read_lag three_ms + write_lag three_ms)) |}.
Proof.
  assert (Hlag : forall op, 0 <= three_ms op) by (intros op; unfold three_ms; lia).
  assert (Htot : read_lag three_ms + write_lag three_ms < 59990) by (vm_compute; reflexivity).
  assert (Hc : 1 + 1 <= 2) by lia.
  split; [reflexivity|]. split; [reflexivity|]. split; [exact Hlag|].
  split; [exact Htot|]. split; [exact Hc|].
  destruct (allowed_request_pushes_deadline (limited 2) items_key 2 three_ms one_request
              1 59990 eq_refl eq_refl Hlag Htot) as [Hallowed _].
  destruct (Hallowed Hc) as (_ & _ & Hdb & Hold).
  split; assumption.
Defined.

(** X10.  When its time is up the counter is gone and the next request
    opens a new window, whatever the count had been: it is let through,
    reports [requestLimit - 1] remaining and a full [timeWindow * 1000] to
    the reset, and the key is stored anew with a count of 1. *)
Theorem expired_counter_starts_anew (options : Options) (key : string) (N T : Z)
    (req : request) (d : gmap string entry) (c t delay : Z) :
  requestLimit options = JNum (Num N) ->
  timeWindow options = JNum (Num T) ->
  1 <= N ->
  0 < T ->
  deriveKey options req = Some key ->
  d !! key = Some {| stored := c; expires_in := Some t |} ->
  t <= delay ->
  exists w',
    rateLimit options calm req (arrival (elapse delay d)) = Some w' /\
    passed w' = true /\ status (res w') = None /\
    remaining_of (Some w') = Some (N - 1) /\
    reset_of (Some w') = Some (T * 1000) /\
    db w' !! key = Some {| stored := 1; expires_in := Some (T * 1000) |}.
Proof.
  intros HN HT HN1 HT0 Hkey Hk Hlate.
  assert (Hk1 : elapse delay d !! key = None).
  { rewrite elapse_lookup, Hk. cbn. unfold age. cbn.
    destruct (Z.leb_spec t delay); [reflexivity|lia]. }
  exists (verdict options key (elapse delay d)).
  split.
  { unfold rateLimit. rewrite Hkey. f_equal. apply process_calm.
    right. rewrite (seen_ttl_is options key T HT). eauto. }
  destruct (verdict_absent options key N T HN HT _ Hk1 HT0)
    as ((Hal & _ & Hrem & _) & Hdb).
  destruct (Hal ltac:(lia)) as (w' & [= <-] & Hp & Hst).
  destruct (Z.ltb_spec N 1); [lia|].
  repeat split; auto.
  - rewrite Hrem. f_equal. lia.
  - now rewrite (reset_of_verdict options key T HT), Hk1.
Qed.

(** X10 on a counter at its limit of 1 whose 59990 ms have passed. *)
Lemma expired_counter_starts_anew_witness :
  requestLimit (limited 1) = JNum (Num 1) /\
  timeWindow (limited 1) = JNum (Num 60) /\
  1 <= 1 /\ 0 < 60 /\
  deriveKey (limited 1) req_items = Some items_key /\
  one_request !! items_key = Some {| stored := 1; expires_in := Some 59990 |} /\
  59990 <= 59990 /\
  exists w',
    rateLimit (limited 1) calm req_items (arrival (elapse 59990 one_request)) = Some w' /\
    passed w' = true /\ status (res w') = None /\
    remaining_of (Some w') = Some (1 - 1) /\
    reset_of (Some w') = Some (60 * 1000) /\
    db w' !! items_key = Some {| stored := 1; expires_in := Some (60 * 1000) |}.
Proof.
  repeat (split; [first [reflexivity | lia]|]).
  apply (expired_counter_starts_anew (limited 1) items_key 1 60 req_items one_request
           1 59990 59990); first [reflexivity | lia].
Defined.

(** ** Counters that do not run as meant *)

(** X11.  A fault between the two writes leaves a counter that never
    expires.  When [pexpire] reports an error on the first request for a
    key, the request is answered with the 500 and not passed on, but
    [INCR] has been executed: the key is stored with a count of 1 and no
    expiry. *)
Theorem pexpire_fault_strands_counter (options : Options) (req : request)
    (key : string) (N T : Z) (d : gmap string entry) :
  requestLimit options = JNum (Num N) ->
  timeWindow options = JNum (Num T) ->
  1 <= N ->
  deriveKey options req = Some key ->
  d !! key = None ->
  exists w',
    rateLimit options pexpire_fails req (arrival d) = Some w' /\
    status (res w') = Some 500 /\ passed w' = false /\
    rev (trace w') = [EXISTS key; INCR key; PEXPIRE key (Num (T * 1000))] /\
    db w' !! key = Some {| stored := 1; expires_in := None |}.
Proof.
  intros HN HT HN1 Hkey Hk. eexists. split.
  { unfold rateLimit. rewrite Hkey. reflexivity. }
  rewrite process_direct.
  unfold direct, observe, commit, attempt, pexpire_fails.
  cbn [op_of redis db arrival fst snd]. rewrite Hk.
  cbn [truthy parseInt Z.eqb negb fst snd sent db].
  rewrite HN, HT. cbn [to_number jmul jgt].
  destruct (Z.ltb_spec N 1); [lia|].
  cbn [op_of redis db sent fst snd]. rewrite Hk.
  cbn. rewrite lookup_insert_eq. repeat split.
Qed.

(** X11 under the default options. *)
Lemma pexpire_fault_strands_counter_witness :
  requestLimit defaultOptions = JNum (Num 60) /\
  timeWindow defaultOptions = JNum (Num 60) /\
  1 <= 60 /\
  deriveKey defaultOptions req_items = Some items_key /\
  (∅ : gmap string entry) !! items_key = None /\
  exists w',
    rateLimit defaultOptions pexpire_fails req_items (arrival ∅) = Some w' /\
    status (res w') = Some 500 /\ passed w' = false /\
    rev (trace w')
      = [EXISTS items_key; INCR items_key; PEXPIRE items_key (Num (60 * 1000))] /\
    db w' !! items_key = Some {| stored := 1; expires_in := None |}.
Proof.
  repeat (split; [first [reflexivity | lia]|]).
  apply (pexpire_fault_strands_counter defaultOptions req_items items_key 60 60 ∅);
    first [reflexivity | lia].
Defined.

Lemma serve_step (options : Options) (key : string) (delay : Z) (req : request)
    (rest : list (Z * request)) (d : gmap string entry) :
  deriveKey options req = Some key ->
  at_limit options key (elapse delay d) = true \/
  (exists ms, seen_ttl options key (elapse delay d) = Num ms) ->
  serve options ((delay, req) :: rest) d
  = Some (verdict options key (elapse delay d))
    :: serve options rest (db (verdict options key (elapse delay d))).
Proof.
  intros Hk Hok. cbn [serve]. unfold rateLimit. rewrite Hk.
  now rewrite process_calm.
Qed.

Lemma reset_of_verdict_seen (options : Options) (key : string)
    (d : gmap string entry) :
  headers (res (verdict options key d)) !! "X-RateLimit-Reset"%string
  = Some (JNum (seen_ttl options key d)) /\
  headers (res (verdict options key d)) !! "X-RateLimit-Remaining"%string
  = Some (JNum (requestsRemaining options (seen_count key d))).
Proof.
  assert (Hh : headers (res (verdict options key d))
               = decision_headers options (seen_count key d) (seen_ttl options key d)).
  { destruct (at_limit options key d) eqn:Ha;
      [rewrite verdict_at_limit|rewrite verdict_under_limit]; auto. }
  rewrite Hh.
  destruct (decision_headers_lookup options (seen_count key d) (seen_ttl options key d))
    as (_ & -> & _ & ->).
  split; reflexivity.
Qed.

(** X12.  A counter without expiry that has reached the limit locks its
    key out for good: every later request, however much later, is answered
    with 429, reports -1 as the time to the reset, and leaves the counter
    as it is. *)
Theorem counter_without_expiry_locks_out (options : Options) (key : string)
    (N c : Z) (reqs : list (Z * request)) :
  requestLimit options = JNum (Num N) ->
  N <= c ->
  same_key options key reqs ->
  forall (d : gmap string entry),
    d !! key = Some {| stored := c; expires_in := None |} ->
    forall j w,
      serve options reqs d !! j = Some w ->
      rejected w /\ reset_of w = Some (-1) /\
      exists w', w = Some w' /\
                 db w' !! key = Some {| stored := c; expires_in := None |}.
Proof.
  intros HN Hc Hsame.
  induction Hsame as [|[delay req] rest [Hd Hkey] Hsame IH]; intros d Hk j w Hj.
  - discriminate.
  - cbn in Hd, Hkey.
    assert (Hk1 : elapse delay d !! key = Some {| stored := c; expires_in := None |}).
    { now rewrite elapse_lookup, Hk. }
    assert (Ha : at_limit options key (elapse delay d) = true).
    { rewrite (at_limit_is options key N HN), Hk1. cbn.
      destruct (Z.ltb_spec N (c + 1)); [reflexivity|lia]. }
    rewrite (serve_step options key) in Hj by auto.
    destruct j as [|j'].
    + cbn in Hj. injection Hj as <-.
      split; [|split].
      * eexists. split; [reflexivity|]. now rewrite verdict_at_limit.
      * unfold reset_of.
        rewrite (proj1 (reset_of_verdict_seen options key (elapse delay d))).
        unfold seen_ttl. now rewrite Hk1.
      * eexists. split; [reflexivity|]. now rewrite verdict_at_limit.
    + cbn in Hj.
      apply (IH (db (verdict options key (elapse delay d)))) with (j := j');
        [|exact Hj].
      now rewrite verdict_at_limit.
Qed.

(** X13.  A limit that counts as less than one (0, which the constructor
    lets through, as it does [null], [false] and ['']) closes the route:
    every request is answered with 429 with nothing remaining, after a
    single [EXISTS], and no key is ever stored. *)
Theorem nonpositive_limit_rejects_all (options : Options) (key : string)
    (N : Z) (reqs : list (Z * request)) :
  to_number (requestLimit options) = Num N ->
  N < 1 ->
  same_key options key reqs ->
  forall (d : gmap string entry),
    d !! key = None ->
    forall j w,
      serve options reqs d !! j = Some w ->
      rejected w /\ remaining_of w = Some 0 /\
      exists w', w = Some w' /\ trace w' = [EXISTS key] /\ db w' !! key = None.
Proof.
  intros HN Hlt Hsame.
  induction Hsame as [|[delay req] rest [Hd Hkey] Hsame IH]; intros d Hk j w Hj.
  - discriminate.
  - cbn in Hd, Hkey.
    pose proof (elapse_absent delay d key Hk) as Hk1.
    assert (Ha : at_limit options key (elapse delay d) = true).
    { unfold at_limit, seen_count. rewrite Hk1, HN. cbn.
      destruct (Z.ltb_spec N 1); [reflexivity|lia]. }
    rewrite (serve_step options key) in Hj by auto.
    destruct j as [|j'].
    + cbn in Hj. injection Hj as <-.
      split; [|split].
      * eexists. split; [reflexivity|]. now rewrite verdict_at_limit.
      * unfold remaining_of.
        rewrite (proj2 (reset_of_verdict_seen options key (elapse delay d))).
        unfold seen_count. rewrite Hk1.
        rewrite (requestsRemaining_max options N 1 HN). f_equal. lia.
      * eexists. split; [reflexivity|]. rewrite verdict_at_limit by assumption.
        cbn. unfold seen_reads. now rewrite Hk1.
    + cbn in Hj.
      apply (IH (db (verdict options key (elapse delay d)))) with (j := j');
        [|exact Hj].
      now rewrite verdict_at_limit.
Qed.

(** X14.  A window that counts as zero ([timeWindow: 0], which the
    constructor lets through) switches the limit off: [PEXPIRE] with 0
    deletes the key that [INCR] has just created, so every request is the
    first of its window and is let through. *)
Theorem zero_window_never_limits (options : Options) (key : string)
    (N : Z) (reqs : list (Z * request)) :
  requestLimit options = JNum (Num N) ->
  to_number (timeWindow options) = Num 0 ->
  1 <= N ->
  same_key options key reqs ->
  forall (d : gmap string entry),
    d !! key = None ->
    forall j w,
      serve options reqs d !! j = Some w ->
      allowed w /\ remaining_of w = Some (N - 1) /\
      exists w', w = Some w' /\ db w' !! key = None.
Proof.
  intros HN HT HN1 Hsame.
  induction Hsame as [|[delay req] rest [Hd Hkey] Hsame IH]; intros d Hk j w Hj.
  - discriminate.
  - cbn in Hd, Hkey.
    pose proof (elapse_absent delay d key Hk) as Hk1.
    assert (Ha : at_limit options key (elapse delay d) = false).
    { rewrite (at_limit_is options key N HN), Hk1.
      destruct (Z.ltb_spec N 1); [lia|reflexivity]. }
    assert (Hs : seen_ttl options key (elapse delay d) = Num 0).
    { unfold seen_ttl. now rewrite Hk1, HT. }
    assert (Hdb : db (verdict options key (elapse delay d)) !! key = None).
    { rewrite verdict_under_limit by assumption. cbn [db]. rewrite Hs.
      cbn [redis]. rewrite Hk1. cbn [snd]. rewrite lookup_insert_eq. cbn.
      apply lookup_delete_eq. }
    rewrite (serve_step options key) in Hj by eauto.
    destruct j as [|j'].
    + cbn in Hj. injection Hj as <-.
      split; [|split].
      * eexists. split; [reflexivity|]. now rewrite verdict_under_limit.
      * unfold remaining_of.
        rewrite (proj2 (reset_of_verdict_seen options key (elapse delay d))).
        unfold seen_count. rewrite Hk1.
        rewrite (requestsRemaining_max options N 1) by (now rewrite HN).
        f_equal. lia.
      * eexists. split; [reflexivity|exact Hdb].
    + cbn in Hj.
      now apply (IH (db (verdict options key (elapse delay d))) Hdb) with (j := j').
Qed.

(** X12 on the counter that X11 leaves behind, under [{ requestLimit: 1 }]. *)
Lemma counter_without_expiry_locks_out_witness :
  requestLimit (limited 1) = JNum (Num 1) /\
  1 <= 1 /\
  same_key (limited 1) items_key three_requests /\
  stranded !! items_key = Some {| stored := 1; expires_in := None |} /\
  (forall j w, serve (limited 1) three_requests stranded !! j = Some w ->
     rejected w /\ reset_of w = Some (-1) /\
     exists w', w = Some w' /\
                db w' !! items_key = Some {| stored := 1; expires_in := None |}).
Proof.
  assert (Hsame : same_key (limited 1) items_key three_requests).
  { repeat constructor; cbn; lia. }
  repeat (split; [first [reflexivity | lia | exact Hsame]|]).
  apply (counter_without_expiry_locks_out (limited 1) items_key 1 1 three_requests);
    first [reflexivity | lia | exact Hsame].
Defined.

(** X13 under [{ requestLimit: 0 }]. *)
Lemma nonpositive_limit_rejects_all_witness :
  to_number (requestLimit (limited 0)) = Num 0 /\
  0 < 1 /\
  same_key (limited 0) items_key three_requests /\
  (∅ : gmap string entry) !! items_key = None /\
  (forall j w, serve (limited 0) three_requests ∅ !! j = Some w ->
     rejected w /\ remaining_of w = Some 0 /\
     exists w', w = Some w' /\ trace w' = [EXISTS items_key] /\
                db w' !! items_key = None).
Proof.
  assert (Hsame : same_key (limited 0) items_key three_requests).
  { repeat constructor; cbn; lia. }
  repeat (split; [first [reflexivity | lia | exact Hsame]|]).
  apply (nonpositive_limit_rejects_all (limited 0) items_key 0 three_requests);
    first [reflexivity | lia | exact Hsame].
Defined.

(** X14 under [{ timeWindow: 0 }]. *)
Lemma zero_window_never_limits_witness :
  requestLimit (windowed 0) = JNum (Num 60) /\
  to_number (timeWindow (windowed 0)) = Num 0 /\
  1 <= 60 /\
  same_key (windowed 0) items_key three_requests /\
  (∅ : gmap string entry) !! items_key = None /\
  (forall j w, serve (windowed 0) three_requests ∅ !! j = Some w ->
     allowed w /\ remaining_of w = Some (60 - 1) /\
     exists w', w = Some w' /\ db w' !! items_key = None).
Proof.
  assert (Hsame : same_key (windowed 0) items_key three_requests).
  { repeat constructor; cbn; lia. }
  repeat (split; [first [reflexivity | lia | exact Hsame]|]).
  apply (zero_window_never_limits (windowed 0) items_key 60 three_requests);
    first [reflexivity | lia | exact Hsame].
Defined.

(** ** Several keys *)

Lemma verdict_other (options : Options) (key k' : string) (d : gmap string entry) :
  k' <> key ->
  (exists ms, seen_ttl options key d = Num ms) ->
  db (verdict options key d) !! k' = d !! k'.
Proof.
  intros Hne Hs. rewrite <- (process_calm options key d) by auto.
  now apply (process_on_key options calm key d).
Qed.

(** X15.  Keys are counted apart.  Requests whose derived keys are pairwise
    different and not yet stored are all let through (under a limit of at
    least one), each as the first of its own window, however many there
    are and whenever they come. *)
Theorem distinct_keys_counted_apart (options : Options) (N T : Z)
    (reqs : list (Z * request)) (keys : list string) :
  requestLimit options = JNum (Num N) ->
  timeWindow options = JNum (Num T) ->
  1 <= N ->
  0 < T ->
  Forall2 (fun r k => deriveKey options r.2 = Some k) reqs keys ->
  NoDup keys ->
  forall (d : gmap string entry),
    (forall k, k ∈ keys -> d !! k = None) ->
    forall j w,
      serve options reqs d !! j = Some w ->
      allowed w /\ remaining_of w = Some (N - 1) /\ reset_of w = Some (T * 1000).
Proof.
  intros HN HT HN1 HT0 Hkeys.
  induction Hkeys as [|[delay req] k rest keys' Hk Hrest IH]; intros Hnd d Habs j w Hj.
  - discriminate.
  - cbn in Hk. apply NoDup_cons in Hnd as [Hnotin Hnd'].
    assert (Hk1 : elapse delay d !! k = None).
    { apply elapse_absent, Habs. now left. }
    assert (Hs : exists ms, seen_ttl options k (elapse delay d) = Num ms).
    { rewrite (seen_ttl_is options k T HT). eauto. }
    rewrite (serve_step options k) in Hj by auto.
    destruct j as [|j'].
    + cbn in Hj. injection Hj as <-.
      destruct (verdict_absent options k N T HN HT _ Hk1 HT0)
        as ((Hal & _ & Hrem & _) & _).
      split; [apply Hal; lia|]. split.
      * rewrite Hrem. f_equal. lia.
      * now rewrite (reset_of_verdict options k T HT), Hk1.
    + cbn in Hj.
      apply (IH Hnd' (db (verdict options k (elapse delay d)))) with (j := j');
        [|exact Hj].
      intros k' Hin.
      rewrite verdict_other; [|intros ->; contradiction|assumption].
      apply elapse_absent, Habs. now right.
Qed.

(** X15 on requests for [/items/5] and [/items/6] with [idMatcher] switched
    off. *)
Lemma distinct_keys_counted_apart_witness :
  requestLimit (defaults (matcher_off 1) defaultOptions) = JNum (Num 1) /\
  timeWindow (defaults (matcher_off 1) defaultOptions) = JNum (Num 60) /\
  1 <= 1 /\ 0 < 60 /\
  Forall2 (fun r k => deriveKey (defaults (matcher_off 1) defaultOptions) r.2 = Some k)
          two_paths two_keys /\
  NoDup two_keys /\
  (forall k, k ∈ two_keys -> (∅ : gmap string entry) !! k = None) /\
  (forall j w,
     serve (defaults (matcher_off 1) defaultOptions) two_paths ∅ !! j = Some w ->
     allowed w /\ remaining_of w = Some (1 - 1) /\ reset_of w = Some (60 * 1000)).
Proof.
  assert (Hk : Forall2 (fun r k => deriveKey (defaults (matcher_off 1) defaultOptions) r.2
                                   = Some k) two_paths two_keys).
  { repeat constructor. }
  assert (Hnd : NoDup two_keys).
  { unfold two_keys. apply NoDup_cons. split.
    - intros Hin. apply list_elem_of_singleton in Hin. discriminate.
    - apply NoDup_singleton. }
  assert (Habs : forall k, k ∈ two_keys -> (∅ : gmap string entry) !! k = None).
  { intros k _. apply lookup_empty. }
  repeat (split; [first [reflexivity | lia | exact Hk | exact Hnd | exact Habs]|]).
  apply (distinct_keys_counted_apart (defaults (matcher_off 1) defaultOptions) 1 60
           two_paths two_keys);
    first [reflexivity | lia | exact Hk | exact Hnd | exact Habs].
Defined.

(** ** Identifiers in the key *)

Lemma run_length_le (cls : ascii -> bool) (s : string) :
  (run_length cls s <= String.length s)%nat.
Proof.
  induction s as [|c s IH]; cbn; [lia|]. destruct (cls c); lia.
Qed.

Lemma search_from_eq (p : class_run) (s : string) (i : nat) :
  search_from p s i
  = match match_here p s with
    | Some n => Some (i, n)
    | None =>
        match s with
        | String _ s' => search_from p s' (S i)
        | EmptyString => None
        end
    end.
Proof. destruct s; reflexivity. Qed.

(** A pattern [[class]{k}$] matches a key that ends in [k] characters of
    the class exactly there: nowhere before is the rest of the key [k]
    characters long. *)
Lemma search_fixed_run (p : class_run) (k : nat) (m : string) :
  at_end p = true -> lo p = k -> hi p = Some k ->
  is_run (in_class p) k m = true ->
  forall (pre : string) (i : nat),
    search_from p (pre +:+ m) i = Some ((i + String.length pre)%nat, k).
Proof.
  intros Hend Hlo Hhi Hrun.
  apply andb_prop in Hrun as [Hlen Hcls].
  apply Nat.eqb_eq in Hlen. apply Nat.eqb_eq in Hcls.
  induction pre as [|c pre IH]; intros i.
  - change ("" +:+ m) with m. rewrite search_from_eq. unfold match_here.
    rewrite Hend, Hlo, Hhi, Hcls, Hlen, Nat.min_id, Nat.eqb_refl, Nat.leb_refl.
    cbn. now rewrite Nat.add_0_r.
  - rewrite append_cons, search_from_eq.
    unfold match_here. rewrite Hend, Hhi.
    assert (Hno : Nat.eqb (Nat.min (run_length (in_class p) (String c (pre +:+ m))) k)
                          (String.length (String c (pre +:+ m))) = false).
    { apply Nat.eqb_neq. cbn [String.length]. rewrite length_append. lia. }
    rewrite Hno. cbn [andb]. rewrite IH. f_equal. f_equal.
    cbn [String.length]. lia.
Qed.

(** What [replaceID] makes of a key that ends in an identifier. *)
Lemma replaceID_fixed_run (options : Options) (p : class_run) (k : nat)
    (v pre m : string) :
  idMatcher options = JRegExp (regexp_of_class_run p) ->
  idValue options = JStr v ->
  v <> ""%string ->
  no_dollar v = true ->
  at_end p = true -> lo p = k -> hi p = Some k ->
  is_run (in_class p) k m = true ->
  replaceID options (pre +:+ m) = Some (pre +:+ v).
Proof.
  intros Hm Hv Hne Hnd Hend Hlo Hhi Hrun.
  unfold replaceID. rewrite Hm, Hv. cbn.
  destruct (String.eqb_spec v ""); [contradiction|]. cbn.
  f_equal.
  pose proof (regexp_replace_at (regexp_of_class_run p) v pre m "") as Hrep.
  rewrite !append_nil_r in Hrep. apply Hrep; [|assumption].
  unfold re_exec. cbn [re_search regexp_of_class_run string_drop].
  rewrite (search_fixed_run p k m Hend Hlo Hhi Hrun pre 0).
  apply andb_prop in Hrun as [Hlen _]. apply Nat.eqb_eq in Hlen.
  now rewrite Hlen.
Qed.

Lemma deriveKey_trailing_id (options : Options) (g : jsnum -> jsval)
    (ip0 method0 base id : string) :
  createKey options = JFun default_createKey g ->
  idMatcher options = JRegExp mongo_id_matcher ->
  idValue options = JStr ":id" ->
  is_run lower_alnum 24 id = true ->
  deriveKey options {| ip := ip0; method := method0; url := base +:+ id |}
  = Some ("RL/" +:+ ip0 +:+ "/" +:+ method0 +:+ base +:+ ":id").
Proof.
  intros Hc Hm Hv Hid. unfold deriveKey. rewrite Hc.
  unfold default_createKey. cbn [ip method url].
  replace ("RL/" +:+ ip0 +:+ "/" +:+ method0 +:+ base +:+ id)
    with (("RL/" +:+ ip0 +:+ "/" +:+ method0 +:+ base) +:+ id)
    by (now rewrite !append_assoc).
  rewrite (replaceID_fixed_run options _ 24 ":id" _ id Hm Hv); try reflexivity;
    [|discriminate|exact Hid].
  now rewrite !append_assoc.
Qed.

(** X16.  Under the default [createKey], [idMatcher] and [idValue], every
    request from one address for [base/<id>], with any 24 characters from
    [a-z0-9] as the id, gets the one key [RL/ip/method base :id]. *)
Theorem ids_collapse_to_one_key (options : Options) (g : jsnum -> jsval)
    (ip0 method0 base id : string) :
  createKey options = JFun default_createKey g ->
  idMatcher options = JRegExp mongo_id_matcher ->
  idValue options = JStr ":id" ->
  is_run lower_alnum 24 id = true ->
  deriveKey options {| ip := ip0; method := method0; url := base +:+ id |}
  = Some ("RL/" +:+ ip0 +:+ "/" +:+ method0 +:+ base +:+ ":id").
Proof.
  exact (deriveKey_trailing_id options g ip0 method0 base id).
Qed.

(** X16 on a MongoDB id. *)
Lemma ids_collapse_to_one_key_witness :
  (exists g, createKey defaultOptions = JFun default_createKey g) /\
  idMatcher defaultOptions = JRegExp mongo_id_matcher /\
  idValue defaultOptions = JStr ":id" /\
  is_run lower_alnum 24 "507f1f77bcf86cd799439011" = true /\
  deriveKey defaultOptions
    {| ip := "::1"; method := "GET"; url := "/items/" +:+ "507f1f77bcf86cd799439011" |}
  = Some ("RL/" +:+ "::1" +:+ "/" +:+ "GET" +:+ "/items/" +:+ ":id").
Proof.
  split; [eexists; reflexivity|]. repeat (split; [reflexivity|]).
  eapply (ids_collapse_to_one_key defaultOptions _ "::1" "GET" "/items/"
            "507f1f77bcf86cd799439011"); reflexivity.
Defined.

Lemma id_requests_same_key (options : Options) (g : jsnum -> jsval)
    (ip0 method0 base : string) (ids : list (Z * string)) :
  createKey options = JFun default_createKey g ->
  idMatcher options = JRegExp mongo_id_matcher ->
  idValue options = JStr ":id" ->
  Forall (fun r => 0 <= r.1 /\ is_run lower_alnum 24 r.2 = true) ids ->
  same_key options ("RL/" +:+ ip0 +:+ "/" +:+ method0 +:+ base +:+ ":id")
           (id_requests ip0 method0 base ids).
Proof.
  intros Hc Hm Hv Hids. unfold same_key, id_requests.
  induction Hids as [|[delay id] rest [Hd Hid] _ IH]; cbn [map]; constructor; auto.
  cbn in *. split; [assumption|].
  now apply (deriveKey_trailing_id options g).
Qed.

(** X17.  Resources that differ in their id only share one quota.  Of any
    number of requests from one address for [base/<id>], each with its own
    24-character id, all within one window of the first, the first
    [requestLimit] are let through and every later one is answered with
    429. *)
Theorem ids_share_one_quota (options : Options) (g : jsnum -> jsval)
    (ip0 method0 base : string) (N T : Z) (ids : list (Z * string))
    (d : gmap string entry) :
  createKey options = JFun default_createKey g ->
  idMatcher options = JRegExp mongo_id_matcher ->
  idValue options = JStr ":id" ->
  requestLimit options = JNum (Num N) ->
  timeWindow options = JNum (Num T) ->
  0 < T ->
  Forall (fun r => 0 <= r.1 /\ is_run lower_alnum 24 r.2 = true) ids ->
  d !! ("RL/" +:+ ip0 +:+ "/" +:+ method0 +:+ base +:+ ":id") = None ->
  span (id_requests ip0 method0 base ids) < T * 1000 ->
  forall j w,
    serve options (id_requests ip0 method0 base ids) d !! j = Some w ->
    (Z.of_nat j < N -> allowed w) /\ (N <= Z.of_nat j -> rejected w).
Proof.
  intros Hc Hm Hv HN HT HT0 Hids Hk Hspan j w Hj.
  pose proof (id_requests_same_key options g ip0 method0 base ids Hc Hm Hv Hids) as Hsame.
  destruct (serve_fresh options _ N T HN HT _ d HT0 Hk Hsame Hspan j w Hj)
    as (Hal & Hrej & _).
  split; intros ?; [apply Hal|apply Hrej]; lia.
Qed.

(** X17 on three ids under [{ requestLimit: 2 }]. *)
Lemma ids_share_one_quota_witness :
  (exists g, createKey (limited 2) = JFun default_createKey g) /\
  idMatcher (limited 2) = JRegExp mongo_id_matcher /\
  idValue (limited 2) = JStr ":id" /\
  requestLimit (limited 2) = JNum (Num 2) /\
  timeWindow (limited 2) = JNum (Num 60) /\
  0 < 60 /\
  Forall (fun r => 0 <= r.1 /\ is_run lower_alnum 24 r.2 = true) three_ids /\
  (∅ : gmap string entry)
    !! ("RL/" +:+ "::1" +:+ "/" +:+ "GET" +:+ "/items/" +:+ ":id") = None /\
  span (id_requests "::1" "GET" "/items/" three_ids) < 60 * 1000 /\
  (forall j w,
     serve (limited 2) (id_requests "::1" "GET" "/items/" three_ids) ∅ !! j = Some w ->
     (Z.of_nat j < 2 -> allowed w) /\ (2 <= Z.of_nat j -> rejected w)).
Proof.
  assert (Hids : Forall (fun r => 0 <= r.1 /\ is_run lower_alnum 24 r.2 = true)
                        three_ids).
  { repeat constructor; cbn; lia. }
  split; [eexists; reflexivity|].
  repeat (split; [first [reflexivity | lia | exact Hids]|]).
  eapply (ids_share_one_quota (limited 2) _ "::1" "GET" "/items/" 2 60 three_ids ∅);
    first [reflexivity | lia | exact Hids].
Defined.

(** ** The random ids of the tests *)

Lemma run_length_append (cls : ascii -> bool) (a b : string) :
  run_length cls a = String.length a ->
  run_length cls (a +:+ b) = (String.length a + run_length cls b)%nat.
Proof.
  induction a as [|c a IH]; [reflexivity|].
  rewrite append_cons. cbn. destruct (cls c); [|discriminate].
  intros [= H]. now rewrite IH.
Qed.

Lemma is_run_spec (cls : ascii -> bool) (k : nat) (m : string) :
  is_run cls k m = true <-> String.length m = k /\ run_length cls m = k.
Proof.
  unfold is_run. rewrite andb_true_iff, !Nat.eqb_eq. reflexivity.
Qed.

Lemma is_run_append (cls : ascii -> bool) (j k : nat) (a b : string) :
  is_run cls j a = true -> is_run cls k b = true ->
  is_run cls (j + k) (a +:+ b) = true.
Proof.
  rewrite !is_run_spec. intros [Ha Ra] [Hb Rb].
  rewrite length_append, run_length_append by congruence. lia.
Qed.

Lemma random_piece_digit (char : nat) :
  (char < 10)%nat -> is_run is_digit 1 (random_piece char) = true.
Proof.
  intros H. do 10 (destruct char as [|char]; [reflexivity|]). lia.
Qed.

Lemma random_piece_alnum (char : nat) :
  (char < 36)%nat -> is_run upper_alnum 1 (random_piece char) = true.
Proof.
  intros H. do 36 (destruct char as [|char]; [reflexivity|]). lia.
Qed.

Lemma fold_pieces_run (cls : ascii -> bool) (piece : nat -> string) (len : nat) :
  (forall n, is_run cls 1 (piece n) = true) ->
  forall (a k : nat) (acc : string),
    is_run cls k acc = true ->
    is_run cls (k + len)
           (fold_left (fun output n => output +:+ piece n) (seq a len) acc) = true.
Proof.
  intros Hp. induction len as [|len IH]; intros a k acc Hacc.
  - cbn. now rewrite Nat.add_0_r.
  - cbn [seq fold_left].
    replace (k + S len)%nat with ((k + 1) + len)%nat by lia.
    apply IH. now apply is_run_append.
Qed.

Lemma randomString_is_run (rnd : nat -> nat -> nat) (length : nat)
    (includeAlphas : bool) :
  (forall n max, (0 < max)%nat -> (rnd n max < max)%nat) ->
  is_run (if includeAlphas then upper_alnum else is_digit) length
         (randomString rnd length includeAlphas) = true.
Proof.
  intros Hrnd. unfold randomString.
  destruct includeAlphas.
  - apply (fold_pieces_run upper_alnum (fun n => random_piece (rnd n 36%nat)) length)
      with (k := O) (acc := ""%string); [|reflexivity].
    intros n. apply random_piece_alnum, Hrnd. lia.
  - apply (fold_pieces_run is_digit (fun n => random_piece (rnd n 10%nat)) length)
      with (k := O) (acc := ""%string); [|reflexivity].
    intros n. apply random_piece_digit, Hrnd. lia.
Qed.

(** X18.  [helpers.randomString(length, includeAlphas)] returns exactly
    [length] characters, all of them decimal digits, or digits and capital
    letters when [includeAlphas] is set, whatever [Math.random] gives. *)
Theorem randomString_shape (rnd : nat -> nat -> nat) (length : nat)
    (includeAlphas : bool) :
  (forall n max, (0 < max)%nat -> (rnd n max < max)%nat) ->
  String.length (randomString rnd length includeAlphas) = length /\
  run_length (if includeAlphas then upper_alnum else is_digit)
             (randomString rnd length includeAlphas) = length.
Proof.
  intros Hrnd. apply is_run_spec. now apply randomString_is_run.
Qed.

(** X18 with a source that counts up. *)
Lemma randomString_shape_witness :
  (forall n max, (0 < max)%nat -> (Nat.modulo n max < max)%nat) /\
  String.length (randomString Nat.modulo 20 true) = 20%nat /\
  run_length upper_alnum (randomString Nat.modulo 20 true) = 20%nat.
Proof.
  assert (Hrnd : forall n max, (0 < max)%nat -> (Nat.modulo n max < max)%nat).
  { intros n max Hmax. apply Nat.mod_upper_bound. lia. }
  split; [exact Hrnd|].
  exact (randomString_shape Nat.modulo 20 true Hrnd).
Defined.

(** X19.  The ids of the test for [/[A-Z0-9]{20}$/] all fall under one key:
    whatever [Math.random] gives, the key of a request for
    [base + randomString(20, true)] under the default [createKey] is the
    one with [:id] in place of the id. *)
Theorem random_ids_collapse (options : Options) (g : jsnum -> jsval)
    (rnd : nat -> nat -> nat) (ip0 method0 base : string) :
  (forall n max, (0 < max)%nat -> (rnd n max < max)%nat) ->
  createKey options = JFun default_createKey g ->
  idMatcher options = JRegExp upper_id_matcher ->
  idValue options = JStr ":id" ->
  deriveKey options
    {| ip := ip0; method := method0; url := base +:+ randomString rnd 20 true |}
  = Some ("RL/" +:+ ip0 +:+ "/" +:+ method0 +:+ base +:+ ":id").
Proof.
  intros Hrnd Hc Hm Hv. unfold deriveKey. rewrite Hc.
  unfold default_createKey. cbn [ip method url].
  replace ("RL/" +:+ ip0 +:+ "/" +:+ method0 +:+ base +:+ randomString rnd 20 true)
    with (("RL/" +:+ ip0 +:+ "/" +:+ method0 +:+ base) +:+ randomString rnd 20 true)
    by (now rewrite !append_assoc).
  rewrite (replaceID_fixed_run options _ 20 ":id" _ (randomString rnd 20 true) Hm Hv);
    try reflexivity; [now rewrite !append_assoc|discriminate|].
  exact (randomString_is_run rnd 20 true Hrnd).
Qed.

(** X19 with a source that counts up. *)
Lemma random_ids_collapse_witness :
  (forall n max, (0 < max)%nat -> (Nat.modulo n max < max)%nat) /\
  (exists g, createKey (defaults (matcher_only upper_id_matcher) defaultOptions)
             = JFun default_createKey g) /\
  idMatcher (defaults (matcher_only upper_id_matcher) defaultOptions)
    = JRegExp upper_id_matcher /\
  idValue (defaults (matcher_only upper_id_matcher) defaultOptions) = JStr ":id" /\
  deriveKey (defaults (matcher_only upper_id_matcher) defaultOptions)
    {| ip := "::1"; method := "GET";
       url := "/items/" +:+ randomString Nat.modulo 20 true |}
  = Some ("RL/" +:+ "::1" +:+ "/" +:+ "GET" +:+ "/items/" +:+ ":id").
Proof.
  assert (Hrnd : forall n max, (0 < max)%nat -> (Nat.modulo n max < max)%nat).
  { intros n max Hmax. apply Nat.mod_upper_bound. lia. }
  split; [exact Hrnd|]. split; [eexists; reflexivity|].
  split; [reflexivity|]. split; [reflexivity|].
  eapply (random_ids_collapse (defaults (matcher_only upper_id_matcher) defaultOptions)
            _ Nat.modulo "::1" "GET" "/items/" Hrnd); reflexivity.
Defined.

Lemma run_length_break (cls : ascii -> bool) (a b : string) (c : ascii) :
  cls c = false ->
  (run_length cls (a +:+ String c b) <= String.length a)%nat.
Proof.
  intros Hc. induction a as [|x a IH].
  - change ("" +:+ String c b) with (String c b). cbn. now rewrite Hc.
  - rewrite append_cons. cbn. destruct (cls x); lia.
Qed.

(** A pattern [[class]+$] matches a key that ends in characters of the
    class after one that is not, from that one on. *)
Lemma search_trailing_run (p : class_run) (m : string) (c : ascii) :
  at_end p = true -> hi p = None ->
  (lo p <= String.length m)%nat ->
  run_length (in_class p) m = String.length m ->
  in_class p c = false ->
  forall (pre : string) (i : nat),
    search_from p ((pre +:+ String c "") +:+ m) i
    = Some ((i + String.length (pre +:+ String c ""))%nat, String.length m).
Proof.
  intros Hend Hhi Hlo Hcls Hc.
  assert (Hm : forall i, search_from p m i = Some (i, String.length m)).
  { intros i. rewrite search_from_eq. unfold match_here.
    rewrite Hend, Hhi, Hcls, Nat.eqb_refl.
    apply Nat.leb_le in Hlo. now rewrite Hlo. }
  induction pre as [|x pre IH]; intros i.
  - change (("" +:+ String c "") +:+ m) with (String c m).
    rewrite search_from_eq. unfold match_here. rewrite Hend, Hhi.
    cbn [run_length]. rewrite Hc. cbn [String.length Nat.eqb andb].
    rewrite Hm. change ("" +:+ String c "") with (String c "").
    cbn [String.length]. f_equal. f_equal. lia.
  - rewrite !append_cons, search_from_eq. unfold match_here. rewrite Hend, Hhi.
    assert (Hno : Nat.eqb
                    (run_length (in_class p) (String x ((pre +:+ String c "") +:+ m)))
                    (String.length (String x ((pre +:+ String c "") +:+ m))) = false).
    { apply Nat.eqb_neq.
      replace (String x ((pre +:+ String c "") +:+ m))
        with (String x pre +:+ String c m)
        by (rewrite append_assoc; reflexivity).
      pose proof (run_length_break (in_class p) (String x pre) m c Hc) as Hb.
      rewrite length_append. cbn [String.length] in *. lia. }
    rewrite Hno. cbn [andb]. rewrite IH. f_equal. f_equal.
    cbn [String.length]. lia.
Qed.

(** X20.  The ids of the test for [/\\d+$/] fall under one key as well,
    provided the path before the id does not itself end in a digit:
    whatever [Math.random] gives, the key of a request for
    [base + randomString(length, false)], with [length] at least 1 and
    [base] ending in a character that is no digit, has [:id] in place of
    the id. *)
Theorem random_digit_ids_collapse (options : Options) (g : jsnum -> jsval)
    (rnd : nat -> nat -> nat) (length : nat) (ip0 method0 base : string)
    (c : ascii) :
  (forall n max, (0 < max)%nat -> (rnd n max < max)%nat) ->
  (1 <= length)%nat ->
  is_digit c = false ->
  createKey options = JFun default_createKey g ->
  idMatcher options = JRegExp trailing_digits ->
  idValue options = JStr ":id" ->
  deriveKey options
    {| ip := ip0; method := method0;
       url := (base +:+ String c "") +:+ randomString rnd length false |}
  = Some ("RL/" +:+ ip0 +:+ "/" +:+ method0 +:+ (base +:+ String c "") +:+ ":id").
Proof.
  intros Hrnd Hlen Hc Hk Hm Hv. unfold deriveKey. rewrite Hk.
  unfold default_createKey. cbn [ip method url].
  destruct (proj1 (is_run_spec _ _ _) (randomString_is_run rnd length false Hrnd))
    as [Hl Hr].
  set (id := randomString rnd length false) in *.
  set (pre := "RL/" +:+ ip0 +:+ "/" +:+ method0 +:+ base).
  replace ("RL/" +:+ ip0 +:+ "/" +:+ method0 +:+ (base +:+ String c "") +:+ id)
    with ((pre +:+ String c "") +:+ id)
    by (unfold pre; now rewrite !append_assoc).
  replace ("RL/" +:+ ip0 +:+ "/" +:+ method0 +:+ (base +:+ String c "") +:+ ":id")
    with ((pre +:+ String c "") +:+ ":id")
    by (unfold pre; now rewrite !append_assoc).
  unfold replaceID. rewrite Hm, Hv. cbn [truthy String.eqb Ascii.eqb negb andb].
  cbn [js_replace pattern_of text_of]. f_equal.
  pose proof (regexp_replace_at trailing_digits ":id" (pre +:+ String c "") id "") as Hrep.
  rewrite !append_nil_r in Hrep. apply Hrep; [|reflexivity].
  unfold re_exec, trailing_digits. cbn [re_search regexp_of_class_run string_drop].
  rewrite (search_trailing_run _ id c); cbn; auto; lia.
Qed.

(** X20 on [/items/] with a source that counts up. *)
Lemma random_digit_ids_collapse_witness :
  (forall n max, (0 < max)%nat -> (Nat.modulo n max < max)%nat) /\
  (1 <= 20)%nat /\
  is_digit "/"%char = false /\
  (exists g, createKey (defaults (matcher_only trailing_digits) defaultOptions)
             = JFun default_createKey g) /\
  idMatcher (defaults (matcher_only trailing_digits) defaultOptions)
    = JRegExp trailing_digits /\
  idValue (defaults (matcher_only trailing_digits) defaultOptions) = JStr ":id" /\
  deriveKey (defaults (matcher_only trailing_digits) defaultOptions)
    {| ip := "::1"; method := "GET";
       url := ("/items" +:+ String "/"%char "") +:+ randomString Nat.modulo 20 false |}
  = Some ("RL/" +:+ "::1" +:+ "/" +:+ "GET" +:+ ("/items" +:+ String "/"%char "")
          +:+ ":id").
Proof.
  assert (Hrnd : forall n max, (0 < max)%nat -> (Nat.modulo n max < max)%nat).
  { intros n max Hmax. apply Nat.mod_upper_bound. lia. }
  split; [exact Hrnd|]. split; [lia|]. split; [reflexivity|].
  split; [eexists; reflexivity|]. split; [reflexivity|]. split; [reflexivity|].
  eapply (random_digit_ids_collapse
            (defaults (matcher_only trailing_digits) defaultOptions)
            _ Nat.modulo 20 "::1" "GET" "/items" "/"%char Hrnd);
    first [reflexivity | lia].
Defined.

(** ** Switching the replacement off *)

(** X21.  A falsy [idMatcher] or [idValue] that is given ([false], [null],
    [0], ['']) is kept by the constructor, not replaced by the default, and
    switches [replaceID] off: the key of a request is what [createKey]
    returns, unchanged. *)
Theorem falsy_matcher_keeps_raw_key (o cfg : Options) (f : request -> string)
    (g : jsnum -> jsval) (req : request) :
  ExpressRedisRateLimit (ArgOptions o) = inr cfg ->
  (idMatcher o <> JUndefined /\ truthy (idMatcher o) = false) \/
  (idValue o <> JUndefined /\ truthy (idValue o) = false) ->
  createKey cfg = JFun f g ->
  deriveKey cfg req = Some (f req).
Proof.
  intros Hc Hoff Hk.
  pose proof (constructed_defaults o cfg Hc) as Hd. subst cfg.
  unfold deriveKey. rewrite Hk. unfold replaceID.
  cbn [defaults idMatcher idValue].
  destruct Hoff as [[Hdef Hf]|[Hdef Hf]].
  - replace (default_to (idMatcher o) (idMatcher defaultOptions)) with (idMatcher o)
      by (destruct (idMatcher o); cbn; congruence).
    now rewrite Hf.
  - replace (default_to (idValue o) (idValue defaultOptions)) with (idValue o)
      by (destruct (idValue o); cbn; congruence).
    rewrite Hf. now rewrite andb_false_r.
Qed.

(** X21 at [{ requestLimit: 1, idMatcher: false }] and a path that ends in
    an id. *)
Lemma falsy_matcher_keeps_raw_key_witness :
  ExpressRedisRateLimit (ArgOptions (matcher_off 1))
    = inr (defaults (matcher_off 1) defaultOptions) /\
  ((idMatcher (matcher_off 1) <> JUndefined /\
    truthy (idMatcher (matcher_off 1)) = false) \/
   (idValue (matcher_off 1) <> JUndefined /\
    truthy (idValue (matcher_off 1)) = false)) /\
  deriveKey (defaults (matcher_off 1) defaultOptions)
    {| ip := "::1"; method := "GET"; url := "/items/507f1f77bcf86cd799439011" |}
  = Some (default_createKey
            {| ip := "::1"; method := "GET";
               url := "/items/507f1f77bcf86cd799439011" |}).
Proof.
  assert (Hoff : (idMatcher (matcher_off 1) <> JUndefined /\
                  truthy (idMatcher (matcher_off 1)) = false) \/
                 (idValue (matcher_off 1) <> JUndefined /\
                  truthy (idValue (matcher_off 1)) = false)).
  { left. split; [discriminate|reflexivity]. }
  split; [reflexivity|]. split; [exact Hoff|].
  eapply (falsy_matcher_keeps_raw_key (matcher_off 1) _ default_createKey _ _
            eq_refl Hoff).
  reflexivity.
Defined.

(** ** Faults and decisions *)

Lemma attempt_unfaulted (options : Options) (faults : cache_op -> bool)
    (c : command) (w : world) :
  unfaulted options faults w ->
  unfaulted options faults (attempt options faults c w).2.
Proof.
  intros [Hw Hclean]. split; [now apply attempt_inflight|].
  intros Hs. destruct (attempt_unsettled options faults c w Hw Hs) as (Hs0 & Hf & _).
  rewrite attempt_trace by assumption. constructor; auto.
Qed.

Lemma process_unfaulted (options : Options) (faults : cache_op -> bool)
    (key : string) (d : gmap string entry) :
  status (res (process options faults key (arrival d))) <> Some 500 ->
  Forall (fun c => faults (op_of c) = false)
         (trace (process options faults key (arrival d))).
Proof.
  rewrite process_direct. unfold direct, observe.
  set (a1 := attempt options faults (EXISTS key) (arrival d)).
  assert (K1 : unfaulted options faults a1.2).
  { apply attempt_unfaulted. split; [apply inflight_arrival|]. constructor. }
  set (ex := truthy (JNum (parseInt a1.1))).
  set (a2 := if ex then attempt options faults (GET key) a1.2 else (JUndefined, a1.2)).
  assert (K2 : unfaulted options faults a2.2).
  { unfold a2. destruct ex; [now apply attempt_unfaulted|exact K1]. }
  set (a3 := if ex then attempt options faults (PTTL key) a2.2 else (JUndefined, a2.2)).
  assert (K3 : unfaulted options faults a3.2).
  { unfold a3. destruct ex; [now apply attempt_unfaulted|exact K2]. }
  set (count := if ex then _ else _). set (ttl := if ex then _ else _).
  set (atLimit := jgt count (to_number (requestLimit options))).
  assert (K5 : unfaulted options faults (commit options faults key ttl atLimit a3.2)).
  { unfold commit. destruct atLimit; [exact K3|].
    now do 2 apply attempt_unfaulted. }
  set (w5 := commit options faults key ttl atLimit a3.2) in *.
  destruct K5 as ([Hp Hr] & Hclean).
  destruct (once_gate_store options (Success (count, ttl, atLimit)) w5) as (_ & ->).
  destruct (settled w5) eqn:S5; [|auto].
  unfold once. rewrite S5, Hr. intros Hst. now contradiction Hst.
Qed.

(** X22.  A decision is only rendered on a run without fault: when the
    response is not the 500, so when the request was let through or
    answered with 429, none of the commands it sent met an error. *)
Theorem decision_only_without_fault (options : Options) (faults : cache_op -> bool)
    (req : request) (d : gmap string entry) (w' : world) :
  rateLimit options faults req (arrival d) = Some w' ->
  status (res w') <> Some 500 ->
  Forall (fun c => faults (op_of c) = false) (trace w').
Proof.
  intros Hrun Hst. unfold rateLimit in Hrun.
  destruct (deriveKey options req) as [key|]; [|discriminate].
  injection Hrun as <-. now apply process_unfaulted.
Qed.

(** X22 at the second request under [{ requestLimit: 1 }]. *)
Lemma decision_only_without_fault_witness :
  rateLimit (limited 1) calm req_items (arrival one_request) = Some second_of_one /\
  status (res second_of_one) <> Some 500 /\
  Forall (fun c => calm (op_of c) = false) (trace second_of_one).
Proof.
  assert (Hst : status (res second_of_one) <> Some 500) by discriminate.
  split; [reflexivity|]. split; [exact Hst|].
  apply (decision_only_without_fault (limited 1) calm req_items one_request
           second_of_one eq_refl Hst).
Defined.

Lemma redis_count (c : command) (key : string) (d : gmap string entry) :
  key_of c = key ->
  (redis c d).2 !! key = d !! key \/
  (redis c d).2 !! key = None \/
  (exists t, (redis c d).2 !! key
             = Some {| stored := count_at key d; expires_in := t |}) \/
  (c = INCR key /\ exists t, (redis c d).2 !! key
             = Some {| stored := count_at key d + 1; expires_in := t |}).
Proof.
  intros <-. unfold count_at.
  destruct c as [k|k|k|k|k [ms|]]; cbn; auto.
  - do 3 right. split; [reflexivity|].
    destruct (d !! k) as [e|]; cbn; rewrite lookup_insert_eq; eauto.
  - destruct (d !! k) as [e|] eqn:Hk; cbn; auto.
    destruct (ms <=? 0).
    + right. left. apply lookup_delete_eq.
    + right. right. left. rewrite lookup_insert_eq. eauto.
Qed.

(** X23.  No request is counted twice, whatever fails: after a request the
    stored count of its key, if there is one, is the count before or that
    plus one (1 on a key that was missing). *)
Theorem counted_at_most_once (options : Options) (faults : cache_op -> bool)
    (req : request) (key : string) (d : gmap string entry) (w' : world) (e' : entry) :
  deriveKey options req = Some key ->
  rateLimit options faults req (arrival d) = Some w' ->
  db w' !! key = Some e' ->
  stored e' = count_at key d \/ stored e' = count_at key d + 1.
Proof.
  intros Hkey Hrun. unfold rateLimit in Hrun. rewrite Hkey in Hrun.
  injection Hrun as <-. rewrite process_direct. unfold direct.
  pose proof (observe_facts options faults key (arrival d) (inflight_arrival options d))
    as Ho.
  destruct (observe options faults key (arrival d)) as [[count ttl] w3].
  destruct Ho as (H3 & D3 & _ & _). cbn [db arrival] in D3.
  set (atLimit := jgt count (to_number (requestLimit options))).
  destruct (once_gate_store options (Success (count, ttl, atLimit))
              (commit options faults key ttl atLimit w3)) as (-> & _).
  unfold commit. destruct atLimit.
  { rewrite D3. unfold count_at. intros ->. now left. }
  set (a4 := attempt options faults (INCR key) w3).
  assert (H4 : inflight options a4.2) by now apply attempt_inflight.
  assert (C4 : db a4.2 !! key = d !! key \/
               exists t, db a4.2 !! key
                         = Some {| stored := count_at key d + 1; expires_in := t |}).
  { destruct (attempt_db options faults (INCR key) w3 H3) as [Hd|Hd];
      fold a4 in Hd; rewrite Hd, D3; [now left|].
    right. cbn [redis]. unfold count_at.
    destruct (d !! key); cbn; rewrite lookup_insert_eq; eauto. }
  destruct (attempt_db options faults (PEXPIRE key ttl) a4.2 H4) as [Hd|Hd];
    rewrite Hd.
  - destruct C4 as [->|[t ->]].
    + unfold count_at. intros ->. now left.
    + intros [= <-]. now right.
  - destruct (redis_count (PEXPIRE key ttl) key (db a4.2) eq_refl)
      as [->|[->|[[t ->]|[Hc _]]]]; try discriminate.
    + destruct C4 as [->|[t ->]].
      * unfold count_at. intros ->. now left.
      * intros [= <-]. now right.
    + intros [= <-]. cbn.
      destruct C4 as [Hsame|[t' Hp]]; unfold count_at in *.
      * rewrite Hsame. now left.
      * rewrite Hp. now right.
Qed.

(** X23 at the request whose [get] fails on a count of 1. *)
Lemma counted_at_most_once_witness :
  deriveKey defaultOptions req_items = Some items_key /\
  rateLimit defaultOptions get_fails req_items (arrival one_request)
    = Some (process defaultOptions get_fails items_key (arrival one_request)) /\
  db (process defaultOptions get_fails items_key (arrival one_request)) !! items_key
    = Some {| stored := 2; expires_in := Some 59990 |} /\
  (2 = count_at items_key one_request \/ 2 = count_at items_key one_request + 1).
Proof.
  split; [reflexivity|]. split; [reflexivity|].
  assert (Hdb : db (process defaultOptions get_fails items_key (arrival one_request))
                  !! items_key
                = Some {| stored := 2; expires_in := Some 59990 |})
    by (vm_compute; reflexivity).
  split; [exact Hdb|].
  apply (counted_at_most_once defaultOptions get_fails req_items items_key one_request
           _ {| stored := 2; expires_in := Some 59990 |} eq_refl eq_refl Hdb).
Defined.
